(** * Application quality extract: criteria evaluation and CSV report

    Shallow embedding of [src/apim/cli/commands/extract-application-quality.js]:
    the criteria registry ([getCriteria], [getEnabledCriteria]), the three
    evaluators, the per-application fan-out/fan-in ([evaluateCriteria]), the
    command pipeline ([definition]) and the CSV reporter ([doNext],
    [doComplete]).

    JavaScript values are modelled as follows: strings as [string], numbers
    that the code only uses as integers as [Z], a property that may be
    [undefined] as [option], arrays as [list], an RxJS observable as the
    finite trace of what it emits followed by how it ends. *)

From Stdlib Require Import List String Ascii ZArith Bool Lia Permutation Sorted.
Import ListNotations.

Set Implicit Arguments.
Local Open Scope string_scope.
Local Open Scope Z_scope.

(** ** JavaScript arrays and strings *)

Module Js.

Section ArraySort.
Variable A : Type.
(** The comparator passed to [Array.prototype.sort]: negative when the
    left argument goes first, positive when it goes last. *)
Variable cmp : A -> A -> Z.

(** [insert x l] places [x] in front of the first element that does not
    sort strictly before it. *)
Fixpoint insert (x : A) (l : list A) : list A :=
  match l with
  | [] => [x]
  | y :: l' => if cmp x y <=? 0 then x :: y :: l' else y :: insert x l'
  end.

(** [Array.prototype.sort(cmp)]: a stable sort (ECMAScript 2019). *)
Fixpoint sort (l : list A) : list A :=
  match l with
  | [] => []
  | x :: l' => insert x (sort l')
  end.
End ArraySort.

(** [String(b)] for a boolean, as [Array.prototype.join] applies it. *)
Definition boolToString (b : bool) : string :=
  if b then "true" else "false".

(** [Array.prototype.join(sep)] on an array of strings. *)
Fixpoint join (sep : string) (l : list string) : string :=
  match l with
  | [] => ""
  | [x] => x
  | x :: l' => x ++ sep ++ join sep l'
  end.

(** [String.prototype.split(sep)] for a one-character separator; the
    result is never empty. *)
Fixpoint split (sep : ascii) (s : string) : list string :=
  match s with
  | EmptyString => [""]
  | String c s' =>
      if Ascii.eqb c sep then "" :: split sep s'
      else match split sep s' with
           | [] => [String c ""]
           | f :: fs => String c f :: fs
           end
  end.

(** Number of occurrences of a character in a string. *)
Fixpoint occurrences (sep : ascii) (s : string) : nat :=
  match s with
  | EmptyString => 0%nat
  | String c s' => ((if Ascii.eqb c sep then 1 else 0) + occurrences sep s')%nat
  end.

End Js.

(** ** Regular expressions

    The fragment of JavaScript regular expressions that the naming convention
    uses: character classes, sequence, alternative, repetition, and the two
    anchors of a pattern without flags. *)

Module RegExp.

Inductive regex : Type :=
| Never                                   (* matches nothing *)
| Empty                                   (* matches the empty string *)
| Class (p : ascii -> bool)               (* one character satisfying [p] *)
| Seq (r1 r2 : regex)
| Alt (r1 r2 : regex)
| Star (r : regex).

Definition Lit (c : ascii) : regex := Class (Ascii.eqb c).
Definition Any : regex := Class (fun _ => true).
(** [r+] and [r?]. *)
Definition Plus (r : regex) : regex := Seq r (Star r).
Definition Opt (r : regex) : regex := Alt r Empty.

(** A pattern literal [/^body$/]: each anchor may be present or not. *)
Record pattern : Type := Pattern {
  anchoredStart : bool;
  body : regex;
  anchoredEnd : bool
}.

(** Declarative meaning: the strings a regex matches entirely. *)
Inductive matches : regex -> string -> Prop :=
| MEmpty : matches Empty ""
| MClass p c : p c = true -> matches (Class p) (String c "")
| MSeq r1 r2 s1 s2 : matches r1 s1 -> matches r2 s2 -> matches (Seq r1 r2) (s1 ++ s2)
| MAltL r1 r2 s : matches r1 s -> matches (Alt r1 r2) s
| MAltR r1 r2 s : matches r2 s -> matches (Alt r1 r2) s
| MStar0 r : matches (Star r) ""
| MStarS r s1 s2 : matches r s1 -> matches (Star r) s2 -> matches (Star r) (s1 ++ s2).

(** Executable matcher, by derivatives. *)
Fixpoint nullable (r : regex) : bool :=
  match r with
  | Never => false
  | Empty => true
  | Class _ => false
  | Seq r1 r2 => nullable r1 && nullable r2
  | Alt r1 r2 => nullable r1 || nullable r2
  | Star _ => true
  end.

Fixpoint deriv (c : ascii) (r : regex) : regex :=
  match r with
  | Never => Never
  | Empty => Never
  | Class p => if p c then Empty else Never
  | Seq r1 r2 =>
      if nullable r1 then Alt (Seq (deriv c r1) r2) (deriv c r2)
      else Seq (deriv c r1) r2
  | Alt r1 r2 => Alt (deriv c r1) (deriv c r2)
  | Star r' => Seq (deriv c r') (Star r')
  end.

Fixpoint fullMatch (r : regex) (s : string) : bool :=
  match s with
  | EmptyString => nullable r
  | String c s' => fullMatch (deriv c r) s'
  end.

(** [RegExp.prototype.test]: some substring matches the body, starting at
    the beginning when the pattern has [^] and finishing at the end when it
    has [$]. *)
Definition test (p : pattern) (s : string) : bool :=
  fullMatch
    (Seq (if anchoredStart p then Empty else Star Any)
         (Seq (body p) (if anchoredEnd p then Empty else Star Any)))
    s.

(** The class [\w]: ASCII letters, digits and underscore. *)
Definition wordChar (c : ascii) : bool :=
  let n := N_of_ascii c in
  ((48 <=? n) && (n <=? 57) || (65 <=? n) && (n <=? 90)
   || (97 <=? n) && (n <=? 122) || (n =? 95))%N.

End RegExp.

(** ** String utilities *)

Module StringUtils.

(** Modelled from the spec: [StringUtils.compare] of [lib/string-utils],
    which is not part of the sources at hand. The registry sorts "ascending
    by reference" with it, in "alphabetical order": a three-way comparison
    of two strings, character code by character code. *)
Fixpoint compare (left right : string) : Z :=
  match left, right with
  | EmptyString, EmptyString => 0
  | EmptyString, String _ _ => -1
  | String _ _, EmptyString => 1
  | String a left', String b right' =>
      match N.compare (N_of_ascii a) (N_of_ascii b) with
      | Lt => -1
      | Gt => 1
      | Eq => compare left' right'
      end
  end.

(** Modelled from the spec: [StringUtils.matches] of [lib/string-utils],
    which is not part of the sources at hand. "name matches a structural
    naming convention": the regular expression is tested on the string. *)
Definition matches (actual : string) (expected : RegExp.pattern) : bool :=
  RegExp.test expected actual.

End StringUtils.

(** ** Failures *)

(** What a thrown exception or an observable error carries. [TypeError] is
    what reading a property of [undefined] or [null] throws; the others are
    the failures of the collaborators. *)
Inductive Failure : Type :=
| TypeError (message : string)
| AuthFailure
| NotFound
| Timeout
| TransportFailure (message : string).

(** ** Observables

    An observable is modelled by its trace: the values it emits, in order,
    and how it ends. Where several observables are merged, the order in
    which their events arrive is chosen by a schedule. The schedules cover
    every order in which the observables of the collaborators can resolve,
    and more: a schedule may also hold back the values of an observable that
    emits as soon as it is subscribed ([Rx.of], [Rx.from]). What holds for
    every schedule holds for every run; the empty schedule is the run in
    which everything resolves in the order of the source. *)

Module Rx.

Record Observable (A : Type) : Type := Obs {
  emitted : list A;
  ending : option Failure          (* [None]: completes *)
}.
Arguments Obs {A} _ _.

Section Operators.
Variables A B : Type.

(** [Rx.of(x)], [Rx.from(array)], [throwError(e)]. *)
Definition of_ (x : A) : Observable A := Obs [x] None.
Definition from (l : list A) : Observable A := Obs l None.
Definition throwError (e : Failure) : Observable A := Obs [] (Some e).

(** [map(f)]. *)
Definition map (f : A -> B) (o : Observable A) : Observable B :=
  Obs (List.map f (emitted o)) (ending o).

(** [take(n)]: completes with the [n]-th value; a source that ends
    earlier ends the result the same way. *)
Definition take (n : nat) (o : Observable A) : Observable A :=
  if (n <=? List.length (emitted o))%nat then Obs (firstn n (emitted o)) None
  else o.

(** [reduce(f, seed)]: emits the accumulated value when the source
    completes, and nothing when it fails. *)
Definition reduce (f : B -> A -> B) (seed : B) (o : Observable A) : Observable B :=
  match ending o with
  | None => Obs [fold_left f (emitted o) seed] None
  | Some e => Obs [] (Some e)
  end.
End Operators.

Section MergeMap.
(** [S] is the state that the projection function reads and writes. *)
Variables S A B : Type.
(** The function given to [flatMap]: it throws or returns the inner
    observable. *)
Variable project : A -> S -> (Failure + Observable B) * S.

Definition prepend (x : B) (r : Observable B * S) : Observable B * S :=
  (Obs (x :: emitted (fst r)) (ending (fst r)), snd r).

(** The inner observables that are still subscribed, each run to its end
    one after the other. *)
Fixpoint drainInners (inners : list (Observable B)) : Observable B :=
  match inners with
  | [] => Obs [] None
  | o :: rest =>
      match ending o with
      | Some e => Obs (emitted o) (Some e)
      | None =>
          let r := drainInners rest in
          Obs (emitted o ++ emitted r) (ending r)
      end
  end.

(** No scheduled choice left: the pending inner observables finish in
    order, then each remaining source value is projected and its inner
    observable runs to its end before the next one is taken. *)
Fixpoint drainSource (src : list A) (srcEnd : option Failure) (st : S)
  : Observable B * S :=
  match src with
  | [] => (Obs [] srcEnd, st)
  | a :: src' =>
      match project a st with
      | (inl e, st') => (Obs [] (Some e), st')
      | (inr o, st') =>
          match ending o with
          | Some e => (Obs (emitted o) (Some e), st')
          | None =>
              let r := drainSource src' srcEnd st' in
              (Obs (emitted o ++ emitted (fst r)) (ending (fst r)), snd r)
          end
      end
  end.

Definition drain (src : option (Observable A)) (inners : list (Observable B)) (st : S)
  : Observable B * S :=
  let i := drainInners inners in
  match ending i with
  | Some e => (i, st)
  | None =>
      match src with
      | None => (i, st)
      | Some s =>
          let r := drainSource (emitted s) (ending s) st in
          (Obs (emitted i ++ emitted (fst r)) (ending (fst r)), snd r)
      end
  end.

(** Replace or remove the [j]-th pending inner observable. *)
Fixpoint replaceAt (j : nat) (o : Observable B) (l : list (Observable B)) :=
  match l, j with
  | [], _ => []
  | _ :: l', O => o :: l'
  | x :: l', Datatypes.S j' => x :: replaceAt j' o l'
  end.

Fixpoint removeAt (j : nat) (l : list (Observable B)) :=
  match l, j with
  | [], _ => []
  | _ :: l', O => l'
  | x :: l', Datatypes.S j' => x :: removeAt j' l'
  end.

(** [merging sched src inners st]: the merge of the source (until it has
    completed, [None]) and of the subscribed inner observables. Each
    entry of the schedule picks whose next event arrives: the source
    (its next value is projected and the inner observable subscribed, or
    it ends) or one of the inner observables (its next value is emitted,
    or it ends). The first failure ends the result. *)
Fixpoint merging (sched : list nat) (src : option (Observable A))
         (inners : list (Observable B)) (st : S) {struct sched}
  : Observable B * S :=
  match sched with
  | [] => drain src inners st
  | n :: sched' =>
      let open := match src with Some _ => 1%nat | None => 0%nat end in
      let k := (open + List.length inners)%nat in
      let i := Nat.modulo n k in
      match src, i with
      | None, _ =>
          match nth_error inners i with
          | None => (Obs [] None, st)
          | Some o =>
              match emitted o, ending o with
              | x :: xs, e =>
                  prepend x (merging sched' src (replaceAt i (Obs xs e) inners) st)
              | [], Some e => (Obs [] (Some e), st)
              | [], None => merging sched' src (removeAt i inners) st
              end
          end
      | Some s, O =>
          match emitted s, ending s with
          | a :: src', e =>
              match project a st with
              | (inl err, st') => (Obs [] (Some err), st')
              | (inr o, st') => merging sched' (Some (Obs src' e)) (inners ++ [o]) st'
              end
          | [], Some e => (Obs [] (Some e), st)
          | [], None => merging sched' None inners st
          end
      | Some s, Datatypes.S j =>
          match nth_error inners j with
          | None => (Obs [] None, st)
          | Some o =>
              match emitted o, ending o with
              | x :: xs, e =>
                  prepend x (merging sched' src (replaceAt j (Obs xs e) inners) st)
              | [], Some e => (Obs [] (Some e), st)
              | [], None => merging sched' src (removeAt j inners) st
              end
          end
      end
  end.

(** [source.pipe(flatMap(project))], with unbounded concurrency. *)
Definition mergeMap (sched : list nat) (source : Observable A) (st : S)
  : Observable B * S :=
  merging sched (Some source) [] st.
End MergeMap.

(** What a merge has to deliver when the projection [f] does not touch the
    state: the values of the subscribed inner observables and of those that
    [f] returns for the values still to come from the source; and what it
    takes for the merge to complete. *)
Section Expected.
Variables A B : Type.
Variable f : A -> Failure + Observable B.

Definition outputs (a : A) : list B :=
  match f a with inr o => emitted o | inl _ => [] end.
Definition completes (a : A) : Prop :=
  match f a with inr o => ending o = None | inl _ => False end.
Definition sourceItems (src : option (Observable A)) : list A :=
  match src with Some s => emitted s | None => [] end.
Definition sourceCompletes (src : option (Observable A)) : Prop :=
  match src with Some s => ending s = None | None => True end.
Definition allComplete (src : option (Observable A)) (inners : list (Observable B))
  : Prop :=
  sourceCompletes src /\ Forall completes (sourceItems src)
  /\ Forall (fun o => ending o = None) inners.
Definition allOutputs (src : option (Observable A)) (inners : list (Observable B))
  : list B :=
  (List.concat (List.map (@emitted B) inners) ++ flat_map outputs (sourceItems src))%list.
End Expected.

End Rx.

(** ** Data model *)

(** An Application, as the management API returns it. A description that is
    [undefined] or [null] is [None]. *)
Module Application.
Record t : Type := Make {
  id : string;
  name : string;
  description : option string
}.
End Application.

(** The collaborators that [definition] receives; their code is outside of
    the command. *)
Module ElasticSearch.
Record Meta : Type := { total : Z }.
Record Hit : Type := { meta : Meta }.

(** The arguments of one [searchHits] call. *)
Record Query : Type := {
  index : string;
  from : string;
  to : string;
  terms : list (string * string);
  pageSize : Z
}.

Record t : Type := { searchHits : Query -> Rx.Observable Hit }.
End ElasticSearch.

Module ManagementApi.
Record Filters : Type := { byName : option string }.

Record t : Type := {
  login : option string -> option string -> Rx.Observable string;
  getApplication : string -> Rx.Observable Application.t;
  listApplications : Filters -> Z -> Z -> Rx.Observable Application.t
}.
End ManagementApi.

(** Modelled from the spec: [QualityCriterion] of
    [lib/quality-criteria-converter], which is not part of the sources at
    hand. "QualityResult: value object (reference, description, complied)";
    the constructor takes them in the order of the call in
    [evaluateCriteria]. *)
Module QualityCriterion.
Record t : Type := Make {
  description : string;
  reference : string;
  complied : bool
}.
End QualityCriterion.

(** What calling an evaluator does: the search queries it issues, and the
    observable it returns unless it throws. *)
Record Evaluation : Type := {
  issued : list ElasticSearch.Query;
  result : Failure + Rx.Observable bool
}.

(** An entry of the criteria catalog. *)
Module Criterion.
Record t : Type := Make {
  reference : string;
  description : string;
  atRuntime : bool;
  enabled : bool;
  evaluate : Application.t -> ManagementApi.t -> option ElasticSearch.t -> Evaluation
}.
End Criterion.

(** The command line, after parsing. Options without a default may be
    absent. *)
Record Argv : Type := {
  username : option string;
  password : option string;
  filter_by_id : option string;
  filter_by_name : option string;
  delay_period : Z;
  evaluate_runtime : bool;
  evaluate_runtime_from : string;
  evaluate_runtime_to : string;
  elasticsearch_url : option string;
  elasticsearch_url_header : list string;
  elasticsearch_index : string
}.

(** The defaults declared in the constructor of the command;
    [elasticsearch-index] is mandatory. *)
Definition defaultArgv (index : string) : Argv := {|
  username := None;
  password := None;
  filter_by_id := None;
  filter_by_name := None;
  delay_period := 200;
  evaluate_runtime := false;
  evaluate_runtime_from := "now-1M";
  evaluate_runtime_to := "now";
  elasticsearch_url := None;
  elasticsearch_url_header := [];
  elasticsearch_index := index
|}.

(** What the command has written: [displayInfo], [displayRaw] and
    [displayError] lines. *)
Inductive Display : Type :=
| Info (line : string)
| Raw (line : string)
| Error (failure : Failure).

(** The command object: its arguments, its two memoized getters, and what it
    has displayed so far. *)
Record Command : Type := {
  argv : Argv;
  _criteria : option (list (string * Criterion.t));
  _enabledCriteria : option (list Criterion.t);
  console : list Display
}.

Definition newCommand (a : Argv) : Command :=
  {| argv := a; _criteria := None; _enabledCriteria := None; console := [] |}.

(** One report: an Application and its quality results. *)
Record AppQuality : Type := {
  app : Application.t;
  quality : list QualityCriterion.t
}.

(** ** Constants *)

Definition CSV_SEPARATOR : string := ",".
Definition DESCRIPTION_MIN_LENGTH : Z := 30.
Definition LIST_APPLICATIONS_TIMEOUT : Z := 30000.
Definition ONLY_ONE_ES_RESULT : Z := 1.

(** [/^(\w+( \w+)* \- )?\w+( \w+)*( \- \w+)?$/] *)
Definition APP_NAME_REGEX : RegExp.pattern :=
  let w := RegExp.Plus (RegExp.Class RegExp.wordChar) in
  let sp := RegExp.Lit " " in
  let dash := RegExp.Seq (RegExp.Lit " ") (RegExp.Seq (RegExp.Lit "-") (RegExp.Lit " ")) in
  let words := RegExp.Seq w (RegExp.Star (RegExp.Seq sp w)) in
  RegExp.Pattern true
    (RegExp.Seq (RegExp.Opt (RegExp.Seq words dash))
       (RegExp.Seq words (RegExp.Opt (RegExp.Seq dash w))))
    true.

(** ** The command *)

(** Modelled from the spec: [displayInfo], [displayRaw] and [displayError] of
    [CliCommand] ([lib/cli-command]), which is not part of the sources at
    hand. The produced surface is "a CSV-formatted table written to standard
    output" and failures are "surfaced to the operator": each call appends
    one entry to what the command has displayed. *)
Definition display (d : Display) (this : Command) : Command :=
  {| argv := argv this; _criteria := _criteria this;
     _enabledCriteria := _enabledCriteria this;
     console := (console this ++ [d])%list |}.

Definition displayInfo (line : string) := display (Info line).
Definition displayRaw (line : string) := display (Raw line).
Definition displayError (e : Failure) := display (Error e).

Definition runtimeEvaluationEnabled (this : Command) : bool :=
  evaluate_runtime (argv this).

Definition evaluateNamingConvention (expectedRegex : RegExp.pattern) (actual : string)
  : Rx.Observable bool :=
  Rx.of_ (StringUtils.matches actual expectedRegex).

Definition evaluateMinimumLength (expected actual : Z) : Rx.Observable bool :=
  Rx.of_ (expected <=? actual).

(** [elasticsearch] is [undefined] when the command got no
    [elasticsearch-url]: calling its method then throws. *)
Definition evaluateUsage (a : Argv) (app : Application.t) (managementApi : ManagementApi.t)
           (elasticsearch : option ElasticSearch.t) : Evaluation :=
  match elasticsearch with
  | None =>
      {| issued := [];
         result := inl (TypeError "Cannot read property 'searchHits' of undefined") |}
  | Some es =>
      let query := {|
        ElasticSearch.index := elasticsearch_index a;
        ElasticSearch.from := evaluate_runtime_from a;
        ElasticSearch.to := evaluate_runtime_to a;
        ElasticSearch.terms := [("application", Application.id app)];
        ElasticSearch.pageSize := ONLY_ONE_ES_RESULT |} in
      {| issued := [query];
         result :=
           inr (Rx.map (fun hit => ElasticSearch.total (ElasticSearch.meta hit) >? 0)
                  (Rx.take (Z.to_nat ONLY_ONE_ES_RESULT)
                     (ElasticSearch.searchHits es query))) |}
  end.

(** The three entries that [getCriteria] builds. The evaluators are closures
    over the command, of which they read [argv] only. *)
Definition nameNamingConvention : Criterion.t := {|
  Criterion.reference := "APP-DF01";
  Criterion.description := "Name's naming convention complied";
  Criterion.atRuntime := false;
  Criterion.enabled := true;
  Criterion.evaluate := fun app _ _ =>
    {| issued := [];
       result := inr (evaluateNamingConvention APP_NAME_REGEX (Application.name app)) |}
|}.

Definition descriptionMinLength : Criterion.t := {|
  Criterion.reference := "APP-DF02";
  Criterion.description := "Description's length higher than 30";
  Criterion.atRuntime := false;
  Criterion.enabled := true;
  Criterion.evaluate := fun app _ _ =>
    {| issued := [];
       result :=
         match Application.description app with
         | None => inl (TypeError "Cannot read property 'length' of undefined")
         | Some d =>
             inr (evaluateMinimumLength DESCRIPTION_MIN_LENGTH (Z.of_nat (String.length d)))
         end |}
|}.

Definition appUsage (a : Argv) : Criterion.t := {|
  Criterion.reference := "APP-R00";
  Criterion.description := "Application usage at runtime";
  Criterion.atRuntime := true;
  Criterion.enabled := true;
  Criterion.evaluate := fun app managementApi elasticsearch =>
    evaluateUsage a app managementApi elasticsearch
|}.

Definition getCriteria (this : Command) : list (string * Criterion.t) * Command :=
  match _criteria this with
  | Some criteria => (criteria, this)
  | None =>
      let criteria :=
        [("nameNamingConvention", nameNamingConvention);
         ("descriptionMinLength", descriptionMinLength);
         ("appUsage", appUsage (argv this))] in
      (criteria,
       {| argv := argv this; _criteria := Some criteria;
          _enabledCriteria := _enabledCriteria this; console := console this |})
  end.

(** The comparator that both sorts use. *)
Definition byReference (A : Type) (reference : A -> string) (left right : A) : Z :=
  StringUtils.compare (reference left) (reference right).

(** The predicate of the [filter] in [getEnabledCriteria]; [===] on two
    booleans is their equality. *)
Definition isEnabled (runtime : bool) (criteria : Criterion.t) : bool :=
  Criterion.enabled criteria
  && (negb (Criterion.atRuntime criteria) || Bool.eqb (Criterion.atRuntime criteria) runtime).

Definition getEnabledCriteria (this : Command) : list Criterion.t * Command :=
  match _enabledCriteria this with
  | Some enabledCriteria => (enabledCriteria, this)
  | None =>
      let (criteria, this1) := getCriteria this in
      let enabledCriteria :=
        Js.sort (byReference Criterion.reference)
          (filter (isEnabled (runtimeEvaluationEnabled this1)) (List.map snd criteria)) in
      (enabledCriteria,
       {| argv := argv this1; _criteria := _criteria this1;
          _enabledCriteria := Some enabledCriteria; console := console this1 |})
  end.

(** [criteria => criteria.evaluate(...).pipe(map(complied => new
    QualityCriterion(...)))]: the function that [evaluateCriteria] applies to
    each enabled criterion. *)
Definition evaluateOne (app : Application.t) (managementApi : ManagementApi.t)
           (elasticsearch : option ElasticSearch.t) (criteria : Criterion.t)
  : Failure + Rx.Observable QualityCriterion.t :=
  match result (Criterion.evaluate criteria app managementApi elasticsearch) with
  | inl e => inl e
  | inr o =>
      inr (Rx.map
             (fun complied =>
                QualityCriterion.Make (Criterion.description criteria)
                  (Criterion.reference criteria) complied)
             o)
  end.

(** [outer] and [inner] are the schedules of the two [flatMap]: the one over
    [Rx.of(app)] and the one over the enabled criteria. *)
Definition evaluateCriteria (outer inner : list nat) (app : Application.t)
           (managementApi : ManagementApi.t) (elasticsearch : option ElasticSearch.t)
           (this : Command) : Rx.Observable AppQuality * Command :=
  Rx.mergeMap
    (fun app this =>
       let (enabledCriteria, this1) := getEnabledCriteria this in
       let (results, this2) :=
         Rx.mergeMap
           (fun criteria this => (evaluateOne app managementApi elasticsearch criteria, this))
           inner (Rx.from enabledCriteria) this1 in
       (inr (Rx.map
               (fun quality =>
                  {| app := app;
                     quality := Js.sort (byReference QualityCriterion.reference) quality |})
               (Rx.reduce (fun acc criterion => (acc ++ [criterion])%list) [] results)),
        this2))
    outer (Rx.of_ app) this.

(** The [%s] of [util.format] are filled by concatenation. *)
Definition qualityMetricsMessage (app : Application.t) : string :=
  "Get quality metrics for Application " ++ String "034" (Application.name app)
  ++ String "034" (" (" ++ Application.id app ++ ")").

(** [_token => this.argv['filter-by-id'] ? getApplication(...) :
    listApplications(...)]; an empty string is falsy. *)
Definition getApplications (managementApi : ManagementApi.t) (a : Argv)
  : Rx.Observable Application.t :=
  let listing :=
    ManagementApi.listApplications managementApi
      {| ManagementApi.byName := filter_by_name a |}
      (delay_period a) LIST_APPLICATIONS_TIMEOUT in
  match filter_by_id a with
  | Some i => if (i =? "")%string then listing else ManagementApi.getApplication managementApi i
  | None => listing
  end.

(** ** The reporter *)

Record ExtractApplicationQualityCSVReporter : Type := {
  qualityApps : list AppQuality
}.

(** [constructor(cliCommand)]; the command itself is the state that is
    passed along. *)
Definition newReporter : ExtractApplicationQualityCSVReporter :=
  {| qualityApps := [] |}.

Definition doNext (next : AppQuality) (reporter : ExtractApplicationQualityCSVReporter)
  : ExtractApplicationQualityCSVReporter :=
  {| qualityApps := (qualityApps reporter ++ [next])%list |}.

Definition headerLine (enabledCriteria : list Criterion.t) : string :=
  "Application id,Application name,"
  ++ Js.join CSV_SEPARATOR (List.map Criterion.reference enabledCriteria).

Definition dataLine (appQuality : AppQuality) : string :=
  Application.id (app appQuality) ++ CSV_SEPARATOR
  ++ Application.name (app appQuality) ++ CSV_SEPARATOR
  ++ Js.join CSV_SEPARATOR
       (List.map (fun criteria => Js.boolToString (QualityCriterion.complied criteria))
          (quality appQuality)).

Definition doComplete (reporter : ExtractApplicationQualityCSVReporter) (cliCommand : Command)
  : Command :=
  let cliCommand1 := displayInfo "Applications quality, in CSV format:" cliCommand in
  let (enabledCriteria, cliCommand2) := getEnabledCriteria cliCommand1 in
  let cliCommand3 := displayRaw (headerLine enabledCriteria) cliCommand2 in
  fold_left (fun cliCommand appQuality => displayRaw (dataLine appQuality) cliCommand)
    (qualityApps reporter) cliCommand3.

(** Modelled from the spec: the [error] callback of [CliCommandReporter]
    ([lib/cli-command]), which is not part of the sources at hand. "On
    upstream failure, the sink must not emit a partial/corrupt table; it
    surfaces the failure instead." *)
Definition doError (e : Failure) (reporter : ExtractApplicationQualityCSVReporter)
           (cliCommand : Command) : Command :=
  displayError e cliCommand.

(** Modelled from the spec: [CliCommandReporter] as the observer given to
    [subscribe]: [next] is [doNext], [complete] is [doComplete], [error] is
    [doError]. Returns the reporter as it was when the observable ended. *)
Definition subscribe (reports : Rx.Observable AppQuality)
           (reporter : ExtractApplicationQualityCSVReporter) (cliCommand : Command)
  : ExtractApplicationQualityCSVReporter * Command :=
  let reporter' := fold_left (fun r next => doNext next r) (Rx.emitted reports) reporter in
  (reporter',
   match Rx.ending reports with
   | None => doComplete reporter' cliCommand
   | Some e => doError e reporter' cliCommand
   end).

(** ** The pipeline *)

(** The order in which the events of one run arrive: a schedule for each
    [flatMap] of [definition], and for each Application the two schedules of
    its [evaluateCriteria]. *)
Record Schedules : Type := {
  ofLogin : list nat;
  ofApplications : list nat;
  ofEvaluation : Application.t -> list nat * list nat
}.

(** [this.argv['elasticsearch-url'] ? ElasticSearch.createInstance(...) :
    undefined]. [createInstance] stands for
    [ElasticSearch.createInstance(new ElasticSearch.Settings(url, headers))]. *)
Definition connect (createInstance : string -> list string -> ElasticSearch.t) (a : Argv)
  : option ElasticSearch.t :=
  match elasticsearch_url a with
  | Some url =>
      if (url =? "")%string then None
      else Some (createInstance url (elasticsearch_url_header a))
  | None => None
  end.

(** [managementApi.login(...).pipe(...)], the observable that [definition]
    subscribes the reporter to. [tap(f)] in front of [flatMap(g)] runs [f] on
    a value right before [g]: both are the projection of the second
    [flatMap] here. *)
Definition pipeline (s : Schedules)
           (createInstance : string -> list string -> ElasticSearch.t)
           (managementApi : ManagementApi.t) (this : Command)
  : Rx.Observable AppQuality * Command :=
  let elasticsearch := connect createInstance (argv this) in
  let (applications, this1) :=
    Rx.mergeMap
      (fun (_token : string) this => (inr (getApplications managementApi (argv this)), this))
      (ofLogin s)
      (ManagementApi.login managementApi (username (argv this)) (password (argv this)))
      this in
  Rx.mergeMap
    (fun app this =>
       let this' := displayInfo (qualityMetricsMessage app) this in
       let (report, this'') :=
         evaluateCriteria (fst (ofEvaluation s app)) (snd (ofEvaluation s app))
           app managementApi elasticsearch this' in
       (inr report, this''))
    (ofApplications s) applications this1.

(** [definition(managementApi)]. *)
Definition definition (s : Schedules)
           (createInstance : string -> list string -> ElasticSearch.t)
           (managementApi : ManagementApi.t) (this : Command) : Command :=
  let (reports, this') := pipeline s createInstance managementApi this in
  snd (subscribe reports newReporter this').

(** ** The discovery stream *)

Module Discovery.

(** One page of the listing: how long the service takes to answer (never,
    for [None]) and the Applications of the page. *)
Record Page : Type := {
  latency : option Z;
  content : list Application.t
}.

(** The Applications of a page, one every [delay], until the deadline. *)
Fixpoint broadcast (delay timeout clock : Z) (apps : list Application.t)
  : list Application.t * option Z :=
  match apps with
  | [] => ([], Some clock)
  | a :: apps' =>
      let clock' := clock + delay in
      if timeout <? clock' then ([], None)
      else let (l, c) := broadcast delay timeout clock' apps' in (a :: l, c)
  end.

Fixpoint listing (delay timeout clock : Z) (pages : list Page)
  : Rx.Observable Application.t :=
  match pages with
  | [] => Rx.Obs [] None
  | p :: pages' =>
      match latency p with
      | None => Rx.Obs [] (Some Timeout)
      | Some l =>
          if timeout <? clock + l then Rx.Obs [] (Some Timeout)
          else
            match broadcast delay timeout (clock + l) (content p) with
            | (apps, None) => Rx.Obs apps (Some Timeout)
            | (apps, Some clock') =>
                let r := listing delay timeout clock' pages' in
                Rx.Obs (apps ++ Rx.emitted r) (Rx.ending r)
            end
      end
  end.

(** Modelled from the spec: [listApplications] of the management API
    client, which is not part of the sources at hand. "Paginated fetch from
    the management service; consecutive emissions are spaced by a
    configurable delay period; the entire listing operation is bounded by
    an overall timeout, after which it fails with Timeout and no further
    resources are emitted (partial results already emitted are not
    retracted)." [service] gives the pages that the service answers for a
    filter. *)
Definition listResources (service : ManagementApi.Filters -> list Page)
           (filters : ManagementApi.Filters) (delayPeriod timeout : Z)
  : Rx.Observable Application.t :=
  listing delayPeriod timeout 0 (service filters).

(** Modelled from the spec: a management API client whose session is
    established ("login(credentials) -> session") and whose single lookup
    finds nothing but what [lookup] knows ("fails with NotFound if the
    identifier does not resolve"). *)
Definition client (service : ManagementApi.Filters -> list Page)
           (lookup : string -> option Application.t) (token : string)
  : ManagementApi.t := {|
  ManagementApi.login := fun _ _ => Rx.of_ token;
  ManagementApi.getApplication := fun i =>
    match lookup i with
    | Some a => Rx.of_ a
    | None => Rx.throwError _ NotFound
    end;
  ManagementApi.listApplications := listResources service
|}.

End Discovery.

(** ** Sample inputs *)

Module Scenario.

Definition billing : Application.t :=
  Application.Make "7f3a" "Billing - Invoicing - FR"
    (Some "Invoices of the French billing platform").

Definition undescribed : Application.t :=
  Application.Make "9c1d" "invalid_name!" None.

(** An Application whose name holds the separator. *)
Definition listed : Application.t :=
  Application.Make "42" "Billing, Invoicing" (Some "short").

(** The command line [--evaluate-runtime --elasticsearch-url ...
    --elasticsearch-index requests]. *)
Definition runtimeArgv : Argv := {|
  username := Some "admin";
  password := Some "secret";
  filter_by_id := None;
  filter_by_name := None;
  delay_period := 200;
  evaluate_runtime := true;
  evaluate_runtime_from := "now-1M";
  evaluate_runtime_to := "now";
  elasticsearch_url := Some "http://localhost:9200";
  elasticsearch_url_header := [];
  elasticsearch_index := "requests"
|}.

(** A search collaborator that answers every query with one hit per given
    total. *)
Definition search (totals : list Z) : ElasticSearch.t := {|
  ElasticSearch.searchHits := fun _ =>
    Rx.Obs
      (List.map (fun t => {| ElasticSearch.meta := {| ElasticSearch.total := t |} |}) totals)
      None
|}.

(** A management service with one page of two Applications, answered
    after 10 time units. *)
Definition onePage (_ : ManagementApi.Filters) : list Discovery.Page :=
  [{| Discovery.latency := Some 10; Discovery.content := [billing; listed] |}].

(** A management service that never answers. *)
Definition silent (_ : ManagementApi.Filters) : list Discovery.Page :=
  [{| Discovery.latency := None; Discovery.content := [] |}].

Definition managementApi : ManagementApi.t :=
  Discovery.client onePage (fun _ => None) "token".

Definition unreachable : ManagementApi.t :=
  Discovery.client silent (fun _ => None) "token".

(** The second Application is evaluated before the first. *)
Definition schedules : Schedules := {|
  ofLogin := [0; 1; 0]%nat;
  ofApplications := [0; 0; 2; 1; 1; 0]%nat;
  ofEvaluation := fun _ => ([], [0; 0; 0; 3; 2; 1; 1]%nat)
|}.

End Scenario.

(** ** Vocabulary of the statements *)

(** Ascending order of references. *)
Definition ascending (references : list string) : Prop :=
  StronglySorted (fun s t => StringUtils.compare s t <= 0) references.

(** The catalog of a command, memoized already or not, and the enabled
    criteria that it determines. *)
Definition catalog (this : Command) : list (string * Criterion.t) :=
  fst (getCriteria this).

Definition enabledCriteriaOf (this : Command) : list Criterion.t :=
  Js.sort (byReference Criterion.reference)
    (filter (isEnabled (runtimeEvaluationEnabled this)) (List.map snd (catalog this))).

(** The memoized enabled criteria, when there are some, are those of the
    catalog and of the arguments of the command. *)
Definition coherent (this : Command) : Prop :=
  match _enabledCriteria this with
  | Some enabledCriteria => enabledCriteria = enabledCriteriaOf this
  | None => True
  end.

(** Two states of one command that differ at most by what is memoized. *)
Definition sameCommand (this this' : Command) : Prop :=
  argv this' = argv this /\ catalog this' = catalog this /\ console this' = console this.

(** The lines of the table among what the command displayed. *)
Definition table (c : list Display) : list string :=
  flat_map (fun d => match d with Raw line => [line] | _ => [] end) c.

(** What every state of a run that started in [this] keeps: the arguments,
    the catalog, the coherence of what is memoized, and the lines of the
    table displayed so far. *)
Definition sameRun (this st : Command) : Prop :=
  argv st = argv this /\ catalog st = catalog this /\ coherent st
  /\ table (console st) = table (console this).

(** How many values the evaluator of a criterion emits for an Application. *)
Definition emissions (app : Application.t) (managementApi : ManagementApi.t)
           (elasticsearch : option ElasticSearch.t) (criteria : Criterion.t) : nat :=
  List.length (Rx.outputs (evaluateOne app managementApi elasticsearch) criteria).

(** The naming convention in words. A word is one or more word characters;
    words are separated by single spaces; a name is an optional namespace (words,
    then [" - "]), then the words of the resource or provider, then an
    optional country ([" - "], then a word). *)
Inductive word : string -> Prop :=
| word_one c : RegExp.wordChar c = true -> word (String c "")
| word_more c w : RegExp.wordChar c = true -> word w -> word (String c w).

Inductive words : string -> Prop :=
| words_one w : word w -> words w
| words_more w ws : word w -> words ws -> words (w ++ " " ++ ws).

Definition conforms (name : string) : Prop :=
  exists namespace resource country,
    name = namespace ++ resource ++ country
    /\ (namespace = "" \/ exists ns, words ns /\ namespace = ns ++ " - ")
    /\ words resource
    /\ (country = "" \/ exists c, word c /\ country = " - " ++ c).

(** The number of fields of a CSV line. *)
Definition fields (line : string) : nat := List.length (Js.split "," line).


(** ** Vocabulary of the further properties *)

Section Threading.
Variables S A B : Type.
Variable project : A -> S -> (Failure + Rx.Observable B) * S.

(** The inner observables that the projection returns for the values of a
    source taken in order, each call starting in the state that the previous
    one left; [None] when a call throws. *)
Fixpoint projectAll (src : list A) (st : S) : option (list (Rx.Observable B)) * S :=
  match src with
  | [] => (Some [], st)
  | a :: src' =>
      match project a st with
      | (inl _, st') => (None, st')
      | (inr o, st') =>
          let r := projectAll src' st' in
          (option_map (cons o) (fst r), snd r)
      end
  end.
End Threading.

(** The projection of the second [flatMap] of [pipeline]. *)
Definition evaluateApplication (s : Schedules) (managementApi : ManagementApi.t)
           (elasticsearch : option ElasticSearch.t) (app0 : Application.t) (this : Command)
  : (Failure + Rx.Observable AppQuality) * Command :=
  let this' := displayInfo (qualityMetricsMessage app0) this in
  let (report, this'') :=
    evaluateCriteria (fst (ofEvaluation s app0)) (snd (ofEvaluation s app0))
      app0 managementApi elasticsearch this' in
  (inr report, this'').

(** The report of an Application when every evaluator has emitted: the
    results in the order of the enabled criteria, sorted. *)
Definition reportOf (app0 : Application.t) (managementApi : ManagementApi.t)
           (elasticsearch : option ElasticSearch.t) (this : Command) : AppQuality :=
  {| app := app0;
     quality :=
       Js.sort (byReference QualityCriterion.reference)
         (flat_map (Rx.outputs (evaluateOne app0 managementApi elasticsearch))
            (enabledCriteriaOf this)) |}.

(** More sample inputs: a management service whose page holds an Application
    without description between two that have one. *)
Module Fleet.

Definition documented : Application.t :=
  Application.Make "a1" "Payments" (Some "Payment initiation and reconciliation").

Definition page (_ : ManagementApi.Filters) : list Discovery.Page :=
  [{| Discovery.latency := Some 10;
      Discovery.content := [Scenario.billing; Scenario.undescribed; documented] |}].

Definition managementApi : ManagementApi.t :=
  Discovery.client page (fun _ => None) "token".

Definition described (_ : ManagementApi.Filters) : list Discovery.Page :=
  [{| Discovery.latency := Some 10;
      Discovery.content := [Scenario.billing; documented] |}].

Definition healthy : ManagementApi.t :=
  Discovery.client described (fun _ => None) "token".

(** The command line [--evaluate-runtime --elasticsearch-index requests],
    without [--elasticsearch-url]. *)
Definition runtimeWithoutUrl : Argv := {|
  username := Some "admin";
  password := Some "secret";
  filter_by_id := None;
  filter_by_name := None;
  delay_period := 200;
  evaluate_runtime := true;
  evaluate_runtime_from := "now-1M";
  evaluate_runtime_to := "now";
  elasticsearch_url := None;
  elasticsearch_url_header := [];
  elasticsearch_index := "requests"
|}.

(** The command line [--filter-by-id unknown --elasticsearch-index
    requests]. *)
Definition byUnknownId : Argv := {|
  username := Some "admin";
  password := Some "secret";
  filter_by_id := Some "unknown";
  filter_by_name := None;
  delay_period := 200;
  evaluate_runtime := false;
  evaluate_runtime_from := "now-1M";
  evaluate_runtime_to := "now";
  elasticsearch_url := None;
  elasticsearch_url_header := [];
  elasticsearch_index := "requests"
|}.

(** The order of a run in which everything resolves in the order of the
    source, except that the report of the second Application arrives before
    that of the first: both Applications are discovered and their
    evaluations subscribed, the discovery completes, then the second
    evaluation resolves, then the first. With runtime evaluation each report
    waits for the answer of the search, so that this is an order in which the
    command can run. *)
Definition secondFirst : Schedules := {|
  ofLogin := [];
  ofApplications := [0; 0; 0; 1; 0]%nat;
  ofEvaluation := fun _ => ([], [])
|}.

(** A management service that rejects the credentials. *)
Definition rejecting : ManagementApi.t := {|
  ManagementApi.login := fun _ _ => Rx.throwError _ AuthFailure;
  ManagementApi.getApplication := fun _ => Rx.throwError _ NotFound;
  ManagementApi.listApplications := Discovery.listResources page
|}.

(** A search collaborator that emits one hit and then fails. *)
Definition flaky : ElasticSearch.t := {|
  ElasticSearch.searchHits := fun _ =>
    Rx.Obs [{| ElasticSearch.meta := {| ElasticSearch.total := 5 |} |}]
      (Some (TransportFailure "connection reset"))
|}.

End Fleet.

(** * Properties *)

(** ** Sorting *)

Section SortFacts.
Variable A : Type.
Variable cmp : A -> A -> Z.

Let le (x y : A) : Prop := cmp x y <= 0.

Lemma insert_perm (x : A) (l : list A) : Permutation (Js.insert cmp x l) (x :: l).
Proof.
  induction l as [|y l IH]; simpl.
  - apply Permutation_refl.
  - destruct (cmp x y <=? 0).
    + apply Permutation_refl.
    + apply perm_trans with (y :: x :: l).
      * apply perm_skip, IH.
      * apply perm_swap.
Qed.

Lemma sort_perm (l : list A) : Permutation (Js.sort cmp l) l.
Proof.
  induction l as [|x l IH]; simpl.
  - apply perm_nil.
  - apply perm_trans with (x :: Js.sort cmp l).
    + apply insert_perm.
    + apply perm_skip, IH.
Qed.

Lemma sort_length (l : list A) : List.length (Js.sort cmp l) = List.length l.
Proof. apply Permutation_length, sort_perm. Qed.

Lemma sort_In (x : A) (l : list A) : In x (Js.sort cmp l) <-> In x l.
Proof.
  split; apply Permutation_in; [| apply Permutation_sym]; apply sort_perm.
Qed.

(** What the comparator must satisfy for the result to be sorted. *)
Hypothesis cmp_total : forall x y, 0 < cmp x y -> cmp y x <= 0.
Hypothesis cmp_trans : forall x y z, cmp x y <= 0 -> cmp y z <= 0 -> cmp x z <= 0.

Lemma insert_sorted (x : A) (l : list A) :
  StronglySorted le l -> StronglySorted le (Js.insert cmp x l).
Proof.
  induction 1 as [|y l Hs IH Hy]; simpl.
  - constructor; constructor.
  - destruct (Z.leb_spec (cmp x y) 0) as [Hxy|Hxy].
    + constructor.
      * constructor; assumption.
      * constructor; [exact Hxy|].
        rewrite Forall_forall in Hy |- *. intros z Hz.
        apply cmp_trans with y; [exact Hxy | apply Hy, Hz].
    + constructor; [exact IH|].
      rewrite Forall_forall in Hy |- *. intros z Hz.
      apply (Permutation_in _ (insert_perm x l)) in Hz.
      destruct Hz as [<-|Hz]; [apply cmp_total, Hxy | apply Hy, Hz].
Qed.

Lemma sort_sorted (l : list A) : StronglySorted le (Js.sort cmp l).
Proof.
  induction l as [|x l IH]; simpl; [constructor | apply insert_sorted, IH].
Qed.

Lemma insert_first (x : A) (l : list A) :
  Forall (le x) l -> Js.insert cmp x l = x :: l.
Proof.
  destruct 1 as [|y l Hy _]; simpl; [reflexivity|].
  destruct (Z.leb_spec (cmp x y) 0); [reflexivity | unfold le in Hy; lia].
Qed.

(** Sorting leaves a sorted array as it is. *)
Lemma sort_of_sorted (l : list A) : StronglySorted le l -> Js.sort cmp l = l.
Proof.
  induction 1 as [|x l Hs IH Hx]; simpl; [reflexivity|].
  rewrite IH. apply insert_first, Hx.
Qed.

(** Where the comparator tells apart any two different values, a sorted
    arrangement is unique. *)
Hypothesis cmp_antisym : forall x y, cmp x y <= 0 -> cmp y x <= 0 -> x = y.

Lemma sorted_perm_eq (l1 l2 : list A) :
  StronglySorted le l1 -> StronglySorted le l2 -> Permutation l1 l2 -> l1 = l2.
Proof.
  intros H1. revert l2.
  induction H1 as [|x l1 Hs1 IH Hx]; intros l2 H2 Hp.
  - apply Permutation_nil in Hp. now subst.
  - destruct H2 as [|y l2 Hs2 Hy].
    + apply Permutation_sym, Permutation_nil in Hp. discriminate.
    + assert (x = y) as ->.
      { assert (In x (y :: l2)) as Hin1
          by (apply (Permutation_in _ Hp); left; reflexivity).
        assert (In y (x :: l1)) as Hin2
          by (apply (Permutation_in _ (Permutation_sym Hp)); left; reflexivity).
        destruct Hin1 as [->|Hin1]; [reflexivity|].
        destruct Hin2 as [->|Hin2]; [reflexivity|].
        rewrite Forall_forall in Hx, Hy.
        apply cmp_antisym; [apply Hx, Hin2 | apply Hy, Hin1]. }
      f_equal. apply IH; [exact Hs2|].
      apply Permutation_cons_inv with y, Hp.
Qed.

Lemma sort_perm_eq (l1 l2 : list A) :
  Permutation l1 l2 -> Js.sort cmp l1 = Js.sort cmp l2.
Proof.
  intros Hp. apply sorted_perm_eq; try apply sort_sorted.
  apply perm_trans with l1; [apply sort_perm|].
  apply perm_trans with l2; [exact Hp | apply Permutation_sym, sort_perm].
Qed.
End SortFacts.

(** Sorting records by a key sorts their keys. *)
Lemma insert_map_key (A K : Type) (key : A -> K) (c : K -> K -> Z) (x : A) (l : list A) :
  List.map key (Js.insert (fun a b => c (key a) (key b)) x l)
  = Js.insert c (key x) (List.map key l).
Proof.
  induction l as [|y l IH]; simpl; [reflexivity|].
  destruct (c (key x) (key y) <=? 0); simpl; [reflexivity | now rewrite IH].
Qed.

Lemma sort_map_key (A K : Type) (key : A -> K) (c : K -> K -> Z) (l : list A) :
  List.map key (Js.sort (fun a b => c (key a) (key b)) l) = Js.sort c (List.map key l).
Proof.
  induction l as [|x l IH]; simpl; [reflexivity|].
  now rewrite insert_map_key, IH.
Qed.

(** ** The comparison of references *)

Lemma compare_refl (s : string) : StringUtils.compare s s = 0.
Proof.
  induction s as [|a s IH]; simpl; [reflexivity|].
  now rewrite N.compare_refl.
Qed.

Lemma compare_sign (s t : string) :
  StringUtils.compare s t = -1 \/ StringUtils.compare s t = 0 \/ StringUtils.compare s t = 1.
Proof.
  revert t. induction s as [|a s IH]; intros [|b t]; simpl; auto.
  destruct (N.compare _ _); auto.
Qed.

Lemma compare_eq (s t : string) : StringUtils.compare s t = 0 -> s = t.
Proof.
  revert t. induction s as [|a s IH]; intros [|b t]; simpl; try discriminate; auto.
  destruct (N.compare (N_of_ascii a) (N_of_ascii b)) eqn:E; try discriminate.
  intros H. apply N.compare_eq in E.
  f_equal; [| apply IH, H].
  rewrite <- (ascii_N_embedding a), <- (ascii_N_embedding b). now rewrite E.
Qed.

Lemma compare_opp (s t : string) : StringUtils.compare t s = - StringUtils.compare s t.
Proof.
  revert t. induction s as [|a s IH]; intros [|b t]; simpl; try reflexivity.
  rewrite (N.compare_antisym (N_of_ascii a) (N_of_ascii b)).
  destruct (N.compare (N_of_ascii a) (N_of_ascii b)); simpl; auto.
Qed.

Lemma compare_total (s t : string) : 0 < StringUtils.compare s t -> StringUtils.compare t s <= 0.
Proof. rewrite (compare_opp s t). lia. Qed.

Lemma compare_antisym (s t : string) :
  StringUtils.compare s t <= 0 -> StringUtils.compare t s <= 0 -> s = t.
Proof. rewrite (compare_opp s t). intros. apply compare_eq. lia. Qed.

Lemma compare_trans (s t u : string) :
  StringUtils.compare s t <= 0 -> StringUtils.compare t u <= 0 -> StringUtils.compare s u <= 0.
Proof.
  revert t u. induction s as [|a s IH]; intros [|b t] [|c u]; simpl; try lia.
  destruct (N.compare_spec (N_of_ascii a) (N_of_ascii b)) as [E1|E1|E1];
    destruct (N.compare_spec (N_of_ascii b) (N_of_ascii c)) as [E2|E2|E2];
    destruct (N.compare_spec (N_of_ascii a) (N_of_ascii c)) as [E3|E3|E3];
    try lia; intros; try lia.
  eapply IH; eassumption.
Qed.

Lemma sort_references_ascending (l : list string) :
  ascending (Js.sort StringUtils.compare l).
Proof. apply sort_sorted; [apply compare_total | apply compare_trans]. Qed.

Lemma sort_references_perm (l1 l2 : list string) :
  Permutation l1 l2 -> Js.sort StringUtils.compare l1 = Js.sort StringUtils.compare l2.
Proof.
  apply sort_perm_eq; [apply compare_total | apply compare_trans | apply compare_antisym].
Qed.

Lemma sort_references_ascending_id (l : list string) :
  ascending l -> Js.sort StringUtils.compare l = l.
Proof. apply sort_of_sorted. Qed.

(** ** Merging observables *)

Section MergeFacts.
Variables S A B : Type.
Variable project : A -> S -> (Failure + Rx.Observable B) * S.

Lemma obs_eta (X : Type) (o : Rx.Observable X) : Rx.Obs (Rx.emitted o) (Rx.ending o) = o.
Proof. destruct o; reflexivity. Qed.

Lemma nth_error_replaceAt (j : nat) (o o' : Rx.Observable B) (l : list (Rx.Observable B)) :
  nth_error l j = Some o ->
  Permutation (Rx.replaceAt j o' l) (o' :: Rx.removeAt j l)
  /\ Permutation l (o :: Rx.removeAt j l).
Proof.
  revert j. induction l as [|x l IH]; intros [|j] H; simpl in *; try discriminate.
  - injection H as ->. split; apply Permutation_refl.
  - destruct (IH j H) as [H1 H2]. split.
    + apply perm_trans with (x :: o' :: Rx.removeAt j l);
        [apply perm_skip, H1 | apply perm_swap].
    + apply perm_trans with (x :: o :: Rx.removeAt j l);
        [apply perm_skip, H2 | apply perm_swap].
Qed.

Lemma choice_in_range (n len j : nat) (l : list (Rx.Observable B)) :
  List.length l = len -> Nat.modulo n (1 + len) = Datatypes.S j -> nth_error l j <> None.
Proof.
  intros Hl Hm. apply nth_error_Some.
  pose proof (Nat.mod_upper_bound n (1 + len) ltac:(lia)). lia.
Qed.

Lemma choice_in_range0 (n : nat) (l : list (Rx.Observable B)) :
  l <> [] -> nth_error l (Nat.modulo n (List.length l)) <> None.
Proof.
  intros Hl. apply nth_error_Some. apply Nat.mod_upper_bound.
  destruct l; [congruence | simpl; lia].
Qed.
End MergeFacts.

Section PureMerge.
Variables S A B : Type.
Variable f : A -> Failure + Rx.Observable B.

Let project (a : A) (st : S) : (Failure + Rx.Observable B) * S := (f a, st).

Lemma drainInners_spec (l : list (Rx.Observable B)) :
  (Rx.ending (Rx.drainInners l) = None <-> Forall (fun o => Rx.ending o = None) l)
  /\ (Rx.ending (Rx.drainInners l) = None ->
      Rx.emitted (Rx.drainInners l) = List.concat (List.map (@Rx.emitted B) l)).
Proof.
  induction l as [|o l [IH1 IH2]]; simpl.
  - repeat split; auto.
  - destruct (Rx.ending o) eqn:E; simpl.
    + split; [split|]; try discriminate.
      intros H. inversion H; congruence.
    + split; [split|].
      * intros H. constructor; [exact E | now apply IH1].
      * intros H. inversion H; subst. now apply IH1.
      * intros H. now rewrite IH2.
Qed.

Lemma drainSource_spec (src : list A) (e : option Failure) (st : S) :
  snd (Rx.drainSource project src e st) = st
  /\ (Rx.ending (fst (Rx.drainSource project src e st)) = None
      <-> e = None /\ Forall (Rx.completes f) src)
  /\ (Rx.ending (fst (Rx.drainSource project src e st)) = None ->
      Rx.emitted (fst (Rx.drainSource project src e st)) = flat_map (Rx.outputs f) src).
Proof.
  induction src as [|a src (IH0 & IH1 & IH2)]; simpl.
  - repeat split; auto. now intros [-> _].
  - unfold project at 1 3 5. unfold Rx.completes at 1, Rx.outputs at 1.
    destruct (f a) as [err|o] eqn:Ef; simpl.
    + repeat split; try discriminate.
      intros [_ H]. inversion H; subst. unfold Rx.completes in *. now rewrite Ef in *.
    + destruct (Rx.ending o) eqn:Eo; simpl.
      * repeat split; try discriminate.
        intros [_ H]. inversion H; subst. unfold Rx.completes in *. rewrite Ef in *. congruence.
      * split; [exact IH0|]. split; [split|].
        -- intros H. apply IH1 in H as [-> H]. split; [reflexivity|].
           constructor; [unfold Rx.completes; now rewrite Ef | exact H].
        -- intros [-> H]. inversion H; subst. apply IH1. auto.
        -- intros H. now rewrite IH2.
Qed.
End PureMerge.

Section InnerSteps.
Variable B : Type.
Local Abbreviation done := (fun o : Rx.Observable B => Rx.ending o = None).
Local Abbreviation flat := (fun l : list (Rx.Observable B) => List.concat (List.map (@Rx.emitted B) l)).

Lemma inner_emits (j : nat) (o : Rx.Observable B) (x : B) (xs : list B)
      (inners : list (Rx.Observable B)) :
  nth_error inners j = Some o -> Rx.emitted o = x :: xs ->
  (Forall done (Rx.replaceAt j (Rx.Obs xs (Rx.ending o)) inners) <-> Forall done inners)
  /\ Permutation (x :: flat (Rx.replaceAt j (Rx.Obs xs (Rx.ending o)) inners)) (flat inners).
Proof.
  revert j. induction inners as [|y l IH]; intros [|j] H Hx; simpl in *; try discriminate.
  - injection H as ->. rewrite Hx. split; [|apply Permutation_refl].
    split; intros H; inversion H; subst; constructor; auto.
  - destruct (IH j H Hx) as [H1 H2]. split.
    + split; intros H'; inversion H'; subst; constructor; auto; now apply H1.
    + apply perm_trans with (Rx.emitted y ++ x :: flat (Rx.replaceAt j (Rx.Obs xs (Rx.ending o)) l))%list.
      * apply Permutation_middle.
      * apply Permutation_app_head, H2.
Qed.

Lemma inner_completes (j : nat) (o : Rx.Observable B) (inners : list (Rx.Observable B)) :
  nth_error inners j = Some o -> Rx.emitted o = [] -> Rx.ending o = None ->
  (Forall done (Rx.removeAt j inners) <-> Forall done inners)
  /\ flat (Rx.removeAt j inners) = flat inners.
Proof.
  revert j. induction inners as [|y l IH]; intros [|j] H Hx He; simpl in *; try discriminate.
  - injection H as ->. rewrite Hx. split; [|reflexivity].
    split; intros H; [constructor; auto | now inversion H].
  - destruct (IH j H Hx He) as [H1 H2]. split.
    + split; intros H'; inversion H'; subst; constructor; auto; now apply H1.
    + now rewrite H2.
Qed.

Lemma inner_fails (j : nat) (o : Rx.Observable B) (e : Failure)
      (inners : list (Rx.Observable B)) :
  nth_error inners j = Some o -> Rx.ending o = Some e -> ~ Forall done inners.
Proof.
  intros H He Hall. apply nth_error_In in H.
  rewrite Forall_forall in Hall. apply Hall in H. congruence.
Qed.
End InnerSteps.

Section PureMergeSpec.
Variables S A B : Type.
Variable f : A -> Failure + Rx.Observable B.
Let project (a : A) (st : S) : (Failure + Rx.Observable B) * S := (f a, st).

Local Abbreviation res sched src inners st := (Rx.merging project sched src inners st).

Lemma merging_spec (sched : list nat) :
  forall (src : option (Rx.Observable A)) (inners : list (Rx.Observable B)) (st : S),
    snd (res sched src inners st) = st
    /\ (Rx.ending (fst (res sched src inners st)) = None <-> Rx.allComplete f src inners)
    /\ (Rx.ending (fst (res sched src inners st)) = None ->
        Permutation (Rx.emitted (fst (res sched src inners st))) (Rx.allOutputs f src inners)).
Proof.
  induction sched as [|n sched IH]; intros src inners st.
  - simpl. unfold Rx.drain, Rx.allComplete, Rx.allOutputs.
    destruct (drainInners_spec inners) as [D1 D2].
    destruct (Rx.ending (Rx.drainInners inners)) eqn:E.
    + simpl. rewrite E. repeat split; try discriminate.
      intros (_ & _ & H). apply D1 in H. discriminate.
    + destruct src as [s|]; simpl.
      * destruct (drainSource_spec (S:=S) f (Rx.emitted s) (Rx.ending s) st) as (P0 & P1 & P2).
        fold project in P0, P1, P2. split; [exact P0|]. split; [split|].
        -- intros H. apply P1 in H as [H1 H2]. repeat split; auto. now apply D1.
        -- intros (H1 & H2 & _). apply P1. auto.
        -- intros H. rewrite D2, P2 by auto. apply Permutation_refl.
      * rewrite E. repeat split; auto.
        -- now apply D1.
        -- intros _. rewrite D2, app_nil_r by reflexivity. apply Permutation_refl.
  - destruct src as [s|].
    + cbn [Rx.merging].
      destruct (Nat.modulo n (1 + List.length inners)) as [|j] eqn:Ei.
      * (* the source is picked *)
        destruct s as [[|a src'] e]; cbn [Rx.emitted Rx.ending].
        -- destruct e as [e|].
           ++ simpl. unfold Rx.allComplete; simpl. repeat split; try discriminate.
              intros (H & _); discriminate.
           ++ destruct (IH None inners st) as (I0 & I1 & I2).
              split; [exact I0|]. split.
              ** rewrite I1. unfold Rx.allComplete; simpl. tauto.
              ** exact I2.
        -- change (project a st) with (f a, st). cbv beta iota.
           destruct (f a) as [err|o] eqn:Ef.
           ++ simpl. unfold Rx.allComplete; simpl. repeat split; try discriminate.
              intros (_ & H & _). inversion H; subst.
              unfold Rx.completes in *. now rewrite Ef in *.
           ++ destruct (IH (Some (Rx.Obs src' e)) (inners ++ [o])%list st) as (I0 & I1 & I2).
              split; [exact I0|]. split.
              ** rewrite I1. unfold Rx.allComplete; simpl.
                 rewrite Forall_app. split.
                 --- intros (H1 & H2 & H3 & H4). inversion H4; subst.
                     repeat split; auto. constructor; auto.
                     unfold Rx.completes. now rewrite Ef.
                 --- intros (H1 & H2 & H3). inversion H2; subst.
                     unfold Rx.completes in H4. rewrite Ef in H4.
                     repeat split; auto.
              ** intros H. apply I2 in H. eapply perm_trans; [exact H|].
                 unfold Rx.allOutputs; simpl. unfold Rx.outputs at 2. rewrite Ef.
                 rewrite List.map_app, List.concat_app; simpl.
                 rewrite app_nil_r, <- app_assoc. apply Permutation_refl.
      * (* an inner observable is picked *)
        destruct (nth_error inners j) as [o|] eqn:Eo;
          [| exfalso; revert Eo; eapply choice_in_range; [reflexivity | exact Ei]].
        destruct (Rx.emitted o) as [|x xs] eqn:Ex.
        -- destruct (Rx.ending o) as [e|] eqn:Ee.
           ++ simpl. repeat split; try discriminate.
              intros (_ & _ & H). exfalso. eapply inner_fails; eauto.
           ++ destruct (inner_completes j inners Eo Ex Ee) as [C1 C2].
              destruct (IH (Some s) (Rx.removeAt j inners) st) as (I0 & I1 & I2).
              split; [exact I0|]. split.
              ** rewrite I1. unfold Rx.allComplete. rewrite C1. tauto.
              ** intros H. apply I2 in H. unfold Rx.allOutputs in *. now rewrite <- C2.
        -- destruct (inner_emits j inners Eo Ex) as [C1 C2].
           destruct (IH (Some s) (Rx.replaceAt j (Rx.Obs xs (Rx.ending o)) inners) st)
             as (I0 & I1 & I2).
           unfold Rx.prepend; simpl.
           split; [exact I0|]. split.
           ++ rewrite I1. unfold Rx.allComplete. rewrite C1. tauto.
           ++ intros H. apply I2 in H. unfold Rx.allOutputs in *.
              eapply perm_trans; [apply perm_skip, H|].
              rewrite app_comm_cons. apply Permutation_app_tail, C2.
    + cbn [Rx.merging]. simpl Nat.add.
      destruct (nth_error inners (Nat.modulo n (List.length inners))) as [o|] eqn:Eo.
      * set (j := Nat.modulo n (List.length inners)) in *.
        destruct (Rx.emitted o) as [|x xs] eqn:Ex.
        -- destruct (Rx.ending o) as [e|] eqn:Ee.
           ++ simpl. repeat split; try discriminate.
              intros (_ & _ & H). exfalso. eapply inner_fails; eauto.
           ++ destruct (inner_completes j inners Eo Ex Ee) as [C1 C2].
              destruct (IH None (Rx.removeAt j inners) st) as (I0 & I1 & I2).
              split; [exact I0|]. split.
              ** rewrite I1. unfold Rx.allComplete. rewrite C1. tauto.
              ** intros H. apply I2 in H. unfold Rx.allOutputs in *. now rewrite <- C2.
        -- destruct (inner_emits j inners Eo Ex) as [C1 C2].
           destruct (IH None (Rx.replaceAt j (Rx.Obs xs (Rx.ending o)) inners) st)
             as (I0 & I1 & I2).
           unfold Rx.prepend; simpl.
           split; [exact I0|]. split.
           ++ rewrite I1. unfold Rx.allComplete. rewrite C1. tauto.
           ++ intros H. apply I2 in H. unfold Rx.allOutputs in *.
              eapply perm_trans; [apply perm_skip, H|].
              rewrite app_comm_cons. apply Permutation_app_tail, C2.
      * destruct inners as [|o inners];
          [| exfalso; revert Eo; apply choice_in_range0; discriminate].
        simpl. unfold Rx.allComplete, Rx.allOutputs; simpl. repeat split; auto.
Qed.
End PureMergeSpec.

Section MergeInvariant.
Variables S A B : Type.
Variable project : A -> S -> (Failure + Rx.Observable B) * S.
(** [I] holds of the state throughout, [Q] of every value emitted. *)
Variable I : S -> Prop.
Variable Q : B -> Prop.
Hypothesis project_keeps :
  forall a st, I st ->
    I (snd (project a st))
    /\ forall o, fst (project a st) = inr o -> Forall Q (Rx.emitted o).

Local Abbreviation good := (fun o : Rx.Observable B => Forall Q (Rx.emitted o)).

Lemma replaceAt_good (j : nat) (o : Rx.Observable B) (l : list (Rx.Observable B)) :
  good o -> Forall good l -> Forall good (Rx.replaceAt j o l).
Proof.
  intros Ho Hl. revert j. induction Hl as [|x l Hx Hl IH]; intros [|j]; simpl;
    constructor; auto.
Qed.

Lemma removeAt_good (j : nat) (l : list (Rx.Observable B)) :
  Forall good l -> Forall good (Rx.removeAt j l).
Proof.
  intros Hl. revert j. induction Hl as [|x l Hx Hl IH]; intros [|j]; simpl; auto.
Qed.

Lemma drainInners_good (l : list (Rx.Observable B)) :
  Forall good l -> Forall Q (Rx.emitted (Rx.drainInners l)).
Proof.
  induction 1 as [|o l Ho Hl IH]; simpl; [constructor|].
  destruct (Rx.ending o); simpl; [exact Ho | apply Forall_app; auto].
Qed.

Lemma drainSource_good (src : list A) (e : option Failure) (st : S) :
  I st ->
  I (snd (Rx.drainSource project src e st))
  /\ Forall Q (Rx.emitted (fst (Rx.drainSource project src e st))).
Proof.
  revert st. induction src as [|a src IH]; intros st Hst; simpl.
  - split; [exact Hst | constructor].
  - destruct (project_keeps a Hst) as [K1 K2].
    destruct (project a st) as [[err|o] st']; simpl in *.
    + split; [exact K1 | constructor].
    + specialize (K2 o eq_refl). destruct (Rx.ending o); simpl.
      * split; assumption.
      * destruct (IH st' K1) as [J1 J2]. split; [exact J1 | apply Forall_app; auto].
Qed.

Lemma merging_invariant (sched : list nat) :
  forall (src : option (Rx.Observable A)) (inners : list (Rx.Observable B)) (st : S),
    I st -> Forall good inners ->
    I (snd (Rx.merging project sched src inners st))
    /\ Forall Q (Rx.emitted (fst (Rx.merging project sched src inners st))).
Proof.
  induction sched as [|n sched IH]; intros src inners st Hst Hin.
  - simpl. unfold Rx.drain. pose proof (drainInners_good Hin) as Hd.
    destruct (Rx.ending (Rx.drainInners inners)); [split; assumption|].
    destruct src as [s|]; [|split; assumption].
    destruct (drainSource_good (Rx.emitted s) (Rx.ending s) Hst) as [J1 J2].
    simpl. split; [exact J1 | apply Forall_app; auto].
  - assert (Hstep : forall src j,
               I (snd (match nth_error inners j with
                       | None => (Rx.Obs [] None, st)
                       | Some o =>
                           match Rx.emitted o, Rx.ending o with
                           | x :: xs, e =>
                               Rx.prepend x
                                 (Rx.merging project sched src
                                    (Rx.replaceAt j (Rx.Obs xs e) inners) st)
                           | [], Some e => (Rx.Obs [] (Some e), st)
                           | [], None =>
                               Rx.merging project sched src (Rx.removeAt j inners) st
                           end
                       end))
               /\ Forall Q (Rx.emitted (fst (match nth_error inners j with
                       | None => (Rx.Obs [] None, st)
                       | Some o =>
                           match Rx.emitted o, Rx.ending o with
                           | x :: xs, e =>
                               Rx.prepend x
                                 (Rx.merging project sched src
                                    (Rx.replaceAt j (Rx.Obs xs e) inners) st)
                           | [], Some e => (Rx.Obs [] (Some e), st)
                           | [], None =>
                               Rx.merging project sched src (Rx.removeAt j inners) st
                           end
                       end)))).
    { intros src0 j. destruct (nth_error inners j) as [o|] eqn:Eo;
        [| split; [exact Hst | constructor]].
      assert (Ho : Forall Q (Rx.emitted o)).
      { apply nth_error_In in Eo. rewrite Forall_forall in Hin. now apply Hin. }
      destruct (Rx.emitted o) as [|x xs] eqn:Ex.
      - destruct (Rx.ending o); [split; [exact Hst | constructor]|].
        apply IH; [exact Hst | now apply removeAt_good].
      - inversion Ho as [|? ? Hx Hxs]; subst.
        destruct (IH src0 (Rx.replaceAt j (Rx.Obs xs (Rx.ending o)) inners) st Hst)
          as [J1 J2]; [apply replaceAt_good; [exact Hxs | exact Hin]|].
        unfold Rx.prepend; simpl. split; [exact J1 | constructor; assumption]. }
    destruct src as [s|]; cbn [Rx.merging]; [|apply Hstep].
    destruct (Nat.modulo n (1 + List.length inners)) as [|j]; [|apply Hstep].
    destruct (Rx.emitted s) as [|a src']; simpl.
    + destruct (Rx.ending s); [split; [exact Hst | constructor]|].
      now apply IH.
    + destruct (project_keeps a Hst) as [K1 K2].
      destruct (project a st) as [[err|o] st']; simpl in *.
      * split; [exact K1 | constructor].
      * apply IH; [exact K1|]. apply Forall_app. split; [exact Hin|].
        constructor; [now apply K2 | constructor].
Qed.
End MergeInvariant.

Section MergeSource.
Variables S A B : Type.
Variable project : A -> S -> (Failure + Rx.Observable B) * S.

(** A merge Rx.completes only if its source does. *)
Lemma drainSource_completes (src : list A) (e : option Failure) (st : S) :
  Rx.ending (fst (Rx.drainSource project src e st)) = None -> e = None.
Proof.
  revert st. induction src as [|a src IH]; intros st; simpl; [auto|].
  destruct (project a st) as [[err|o] st']; simpl; [discriminate|].
  destruct (Rx.ending o); simpl; [discriminate | apply IH].
Qed.

Lemma merging_completes (sched : list nat) :
  forall (src : option (Rx.Observable A)) (inners : list (Rx.Observable B)) (st : S),
    Rx.ending (fst (Rx.merging project sched src inners st)) = None ->
    match src with Some s => Rx.ending s = None | None => True end.
Proof.
  induction sched as [|n sched IH]; intros src inners st.
  - simpl. unfold Rx.drain. destruct src as [s|]; [|auto].
    destruct (Rx.ending (Rx.drainInners inners)) eqn:E; simpl; [congruence|].
    apply drainSource_completes.
  - destruct src as [s|]; [|auto]. cbn [Rx.merging].
    assert (Hstep : forall j,
               Rx.ending (fst (match nth_error inners j with
                       | None => (Rx.Obs [] None, st)
                       | Some o =>
                           match Rx.emitted o, Rx.ending o with
                           | x :: xs, e =>
                               Rx.prepend x
                                 (Rx.merging project sched (Some s)
                                    (Rx.replaceAt j (Rx.Obs xs e) inners) st)
                           | [], Some e => (Rx.Obs [] (Some e), st)
                           | [], None =>
                               Rx.merging project sched (Some s) (Rx.removeAt j inners) st
                           end
                       end)) = None ->
               nth_error inners j <> None -> Rx.ending s = None).
    { intros j. destruct (nth_error inners j) as [o|]; [|congruence].
      intros H _. destruct (Rx.emitted o) as [|x xs].
      - destruct (Rx.ending o); [discriminate|]. exact (IH _ _ _ H).
      - unfold Rx.prepend in H; simpl in H. exact (IH _ _ _ H). }
    destruct (Nat.modulo n (1 + List.length inners)) as [|j] eqn:Ei.
    + destruct s as [[|a src'] e]; simpl.
      * destruct e; [discriminate | reflexivity].
      * destruct (project a st) as [[err|o] st']; simpl; [discriminate|].
        intros H. exact (IH _ _ _ H).
    + intros H. apply (Hstep j H). eapply choice_in_range; [reflexivity | exact Ei].
Qed.

(** A source that fails before it emits anything fails the merge at once. *)
Lemma mergeMap_failed_source (sched : list nat) (e : Failure) (st : S) :
  Rx.mergeMap project sched (Rx.Obs [] (Some e)) st = (Rx.Obs [] (Some e), st).
Proof.
  unfold Rx.mergeMap. destruct sched as [|n sched]; [reflexivity|].
  cbn [Rx.merging]. simpl List.length. change (1 + 0)%nat with 1%nat.
  rewrite Nat.mod_1_r. reflexivity.
Qed.

(** With no source left and at most one inner observable subscribed, every
    schedule gives the same result. *)
Lemma merging_single (sched : list nat) :
  forall (o : Rx.Observable B) (st : S),
    Rx.merging project sched None [] st = (Rx.Obs [] None, st)
    /\ Rx.merging project sched None [o] st = (o, st)
    /\ Rx.merging project sched (Some (Rx.Obs [] None)) [] st = (Rx.Obs [] None, st)
    /\ Rx.merging project sched (Some (Rx.Obs [] None)) [o] st = (o, st).
Proof.
  induction sched as [|n sched IH]; intros [xs e] st.
  - unfold Rx.merging, Rx.drain; simpl.
    destruct e; simpl; rewrite ?app_nil_r; auto.
  - assert (H1 : Rx.merging project (n :: sched) None [] st = (Rx.Obs [] None, st)).
    { cbn [Rx.merging]. destruct (Nat.modulo n _); reflexivity. }
    assert (H2 : Rx.merging project (n :: sched) None [Rx.Obs xs e] st = (Rx.Obs xs e, st)).
    { cbn [Rx.merging]. simpl List.length. change (0 + 1)%nat with 1%nat.
      rewrite Nat.mod_1_r. simpl.
      destruct xs as [|x xs].
      - destruct e; [reflexivity|]. apply (IH (Rx.Obs [] None) st).
      - destruct (IH (Rx.Obs xs e) st) as (_ & -> & _). reflexivity. }
    split; [exact H1|]. split; [exact H2|]. split.
    + cbn [Rx.merging]. simpl List.length. change (1 + 0)%nat with 1%nat.
      rewrite Nat.mod_1_r. simpl.
      apply (IH (Rx.Obs [] None) st).
    + cbn [Rx.merging]. simpl List.length.
      destruct (Nat.modulo n (1 + 1)) as [|[|j]] eqn:Ej.
      * simpl. apply (IH (Rx.Obs xs e) st).
      * simpl. destruct xs as [|x xs].
        -- destruct e; [reflexivity|]. apply (IH (Rx.Obs [] None) st).
        -- destruct (IH (Rx.Obs xs e) st) as (_ & _ & _ & ->). reflexivity.
      * pose proof (Nat.mod_upper_bound n (1 + 1) ltac:(lia)). lia.
Qed.

(** [Rx.of(x).pipe(flatMap(project))] is the observable that [project]
    returns for [x], whatever the schedule. *)
Lemma mergeMap_of (sched : list nat) (x : A) (st : S) :
  Rx.mergeMap project sched (Rx.of_ x) st
  = match project x st with
    | (inl e, st') => (Rx.Obs [] (Some e), st')
    | (inr o, st') => (o, st')
    end.
Proof.
  unfold Rx.mergeMap, Rx.of_. destruct sched as [|n sched].
  - unfold Rx.merging, Rx.drain; simpl.
    destruct (project x st) as [[err|[xs e]] st']; simpl; [reflexivity|].
    destruct e; simpl; rewrite ?app_nil_r; reflexivity.
  - cbn [Rx.merging]. simpl List.length. change (1 + 0)%nat with 1%nat.
    rewrite Nat.mod_1_r. simpl.
    destruct (project x st) as [[err|o] st']; [reflexivity|].
    apply (merging_single sched o st').
Qed.
End MergeSource.

(** The schedule decides the order of arrival: three values, each projected
    to an observable of itself, arrive in the order of the source when
    nothing is scheduled, and in the opposite order when the three are
    subscribed first and the last one is then picked first. *)
Example merge_follows_the_schedule :
  fst (Rx.mergeMap (fun (n : nat) (st : unit) => (inr (Rx.Obs [n] None), st)) []
         (Rx.from [1; 2; 3]%nat) tt) = Rx.Obs [1; 2; 3]%nat None
  /\ fst (Rx.mergeMap (fun (n : nat) (st : unit) => (inr (Rx.Obs [n] None), st))
            [0; 0; 0; 3; 2; 1]%nat (Rx.from [1; 2; 3]%nat) tt) = Rx.Obs [3; 2; 1]%nat None.
Proof. split; reflexivity. Qed.

(** ** The registry *)

Lemma catalog_ext (this this' : Command) :
  argv this' = argv this -> _criteria this' = _criteria this -> catalog this' = catalog this.
Proof.
  unfold catalog, getCriteria. intros -> ->. now destruct (_criteria this).
Qed.

Lemma enabledCriteriaOf_ext (this this' : Command) :
  argv this' = argv this -> catalog this' = catalog this ->
  enabledCriteriaOf this' = enabledCriteriaOf this.
Proof.
  unfold enabledCriteriaOf, runtimeEvaluationEnabled. now intros -> ->.
Qed.

Lemma getCriteria_spec (this : Command) :
  fst (getCriteria this) = catalog this
  /\ sameCommand this (snd (getCriteria this))
  /\ _enabledCriteria (snd (getCriteria this)) = _enabledCriteria this.
Proof.
  unfold sameCommand, catalog, getCriteria.
  destruct (_criteria this) eqn:E; simpl; rewrite ?E; auto.
Qed.

Lemma getEnabledCriteria_spec (this : Command) :
  coherent this ->
  fst (getEnabledCriteria this) = enabledCriteriaOf this
  /\ sameCommand this (snd (getEnabledCriteria this))
  /\ coherent (snd (getEnabledCriteria this)).
Proof.
  unfold coherent, getEnabledCriteria. intros H.
  destruct (_enabledCriteria this) as [l|] eqn:E.
  - simpl. rewrite E. repeat split; auto.
  - destruct (getCriteria_spec this) as (G1 & (G2 & G3 & G4) & G5).
    destruct (getCriteria this) as [criteria this1]; simpl in *.
    assert (Hc : forall memo,
               catalog {| argv := argv this1; _criteria := _criteria this1;
                          _enabledCriteria := memo; console := console this1 |}
               = catalog this).
    { intros memo. rewrite <- G3. now apply catalog_ext. }
    assert (He : Js.sort (byReference Criterion.reference)
                   (filter (isEnabled (runtimeEvaluationEnabled this1)) (List.map snd criteria))
                 = enabledCriteriaOf this).
    { unfold enabledCriteriaOf, runtimeEvaluationEnabled. now rewrite G1, G2. }
    split; [exact He|]. split.
    + unfold sameCommand; simpl. auto.
    + rewrite He. symmetry. apply enabledCriteriaOf_ext; [exact G2 | apply Hc].
Qed.

Lemma sameCommand_trans (a b c : Command) :
  sameCommand a b -> sameCommand b c -> sameCommand a c.
Proof.
  unfold sameCommand. intros (A1 & A2 & A3) (B1 & B2 & B3).
  repeat split; congruence.
Qed.

Lemma sameCommand_enabled (this this' : Command) :
  sameCommand this this' -> enabledCriteriaOf this' = enabledCriteriaOf this.
Proof. intros (H1 & H2 & _). now apply enabledCriteriaOf_ext. Qed.

(** Displaying a line and reading the enabled criteria commute. *)
Lemma getEnabledCriteria_display (d : Display) (this : Command) :
  getEnabledCriteria (display d this)
  = (fst (getEnabledCriteria this), display d (snd (getEnabledCriteria this))).
Proof.
  unfold getEnabledCriteria, getCriteria, display, runtimeEvaluationEnabled; simpl.
  destruct (_enabledCriteria this) eqn:E; simpl; rewrite ?E; [reflexivity|].
  destruct (_criteria this) eqn:E'; simpl; rewrite ?E, ?E'; reflexivity.
Qed.

Lemma display_coherent (d : Display) (this : Command) :
  coherent this -> coherent (display d this).
Proof.
  unfold coherent; simpl. destruct (_enabledCriteria this); [|auto].
  intros ->. symmetry. apply enabledCriteriaOf_ext; [reflexivity|].
  apply catalog_ext; reflexivity.
Qed.

Lemma enabledCriteriaOf_ascending (this : Command) :
  ascending (List.map Criterion.reference (enabledCriteriaOf this)).
Proof.
  unfold enabledCriteriaOf, byReference.
  rewrite (sort_map_key Criterion.reference StringUtils.compare).
  apply sort_references_ascending.
Qed.

(** ** One Application *)

Lemma fold_left_snoc (X : Type) (l acc : list X) :
  fold_left (fun acc x => (acc ++ [x])%list) l acc = (acc ++ l)%list.
Proof.
  revert acc. induction l as [|x l IH]; intros acc; simpl.
  - now rewrite app_nil_r.
  - rewrite IH, <- app_assoc. reflexivity.
Qed.

(** What [evaluateCriteria] delivers: one report, whose results are those of
    all the evaluators, sorted, when every evaluator returns an observable
    that completes; a failure and no report otherwise. *)
Lemma evaluateCriteria_spec (outer inner : list nat) (app0 : Application.t)
      (managementApi : ManagementApi.t) (elasticsearch : option ElasticSearch.t)
      (this : Command) :
  coherent this ->
  let r := evaluateCriteria outer inner app0 managementApi elasticsearch this in
  let f := evaluateOne app0 managementApi elasticsearch in
  sameCommand this (snd r) /\ coherent (snd r)
  /\ ((Forall (Rx.completes f) (enabledCriteriaOf this)
       /\ exists q,
           Permutation q (flat_map (Rx.outputs f) (enabledCriteriaOf this))
           /\ fst r = Rx.Obs [{| app := app0;
                                 quality := Js.sort (byReference QualityCriterion.reference) q |}]
                        None)
      \/ (~ Forall (Rx.completes f) (enabledCriteriaOf this)
          /\ exists e, fst r = Rx.Obs [] (Some e))).
Proof.
  intros Hc r f. subst r. unfold evaluateCriteria. rewrite mergeMap_of.
  destruct (getEnabledCriteria_spec this Hc) as (E1 & E2 & E3).
  destruct (getEnabledCriteria this) as [enabledCriteria this1]; simpl in E1, E2, E3.
  subst enabledCriteria. unfold Rx.mergeMap.
  destruct (merging_spec (S:=Command) f inner (Some (Rx.from (enabledCriteriaOf this))) [] this1)
    as (M0 & M1 & M2).
  fold f.
  destruct (Rx.merging (fun criteria this0 => (f criteria, this0)) inner
              (Some (Rx.from (enabledCriteriaOf this))) [] this1) as [results this2].
  simpl in M0, M1, M2. subst this2.
  split; [exact E2|]. split; [exact E3|].
  unfold Rx.reduce, Rx.map. destruct (Rx.ending results) as [e|] eqn:Ee.
  - right. split.
    + intros H. enough (Some e = None) by discriminate.
      apply M1. unfold Rx.allComplete; simpl. repeat split; auto.
    + exists e. reflexivity.
  - left. destruct (proj1 M1 eq_refl) as (_ & H & _). split; [exact H|].
    exists (Rx.emitted results). split.
    + specialize (M2 eq_refl). unfold Rx.allOutputs in M2; simpl in M2. exact M2.
    + simpl. rewrite fold_left_snoc. reflexivity.
Qed.

(** ** The results of one report *)

Section ReportFacts.
Variable app0 : Application.t.
Variable managementApi : ManagementApi.t.
Variable elasticsearch : option ElasticSearch.t.

Let f := evaluateOne app0 managementApi elasticsearch.

Lemma outputs_reference (c : Criterion.t) :
  List.map QualityCriterion.reference (Rx.outputs f c)
  = repeat (Criterion.reference c) (emissions app0 managementApi elasticsearch c).
Proof.
  unfold emissions. fold f. unfold Rx.outputs, f, evaluateOne.
  destruct (result (Criterion.evaluate c app0 managementApi elasticsearch)) as [e|o];
    [reflexivity|].
  simpl. induction (Rx.emitted o) as [|b l IH]; simpl; [reflexivity | now rewrite IH].
Qed.

Lemma outputs_references_single (l : list Criterion.t) :
  (forall c, In c l -> emissions app0 managementApi elasticsearch c = 1%nat) ->
  List.map QualityCriterion.reference (flat_map (Rx.outputs f) l)
  = List.map Criterion.reference l.
Proof.
  induction l as [|c l IH]; intros H; simpl; [reflexivity|].
  rewrite List.map_app, outputs_reference, (H c) by (left; reflexivity).
  simpl. f_equal. apply IH. intros c' Hc'. apply H. now right.
Qed.

Lemma outputs_length (l : list Criterion.t) :
  List.length (flat_map (Rx.outputs f) l)
  = list_sum (List.map (emissions app0 managementApi elasticsearch) l).
Proof.
  induction l as [|c l IH]; simpl; [reflexivity|].
  rewrite List.length_app, IH. reflexivity.
Qed.

Lemma list_sum_ones (l : list Criterion.t) :
  (forall c, In c l -> emissions app0 managementApi elasticsearch c = 1%nat) ->
  list_sum (List.map (emissions app0 managementApi elasticsearch) l) = List.length l.
Proof.
  induction l as [|c l IH]; intros H; simpl; [reflexivity|].
  rewrite (H c), IH; [reflexivity | | left; reflexivity].
  intros c' Hc'. apply H. now right.
Qed.

(** Every report of [evaluateCriteria] is about its Application; its
    results are sorted by reference, there are as many as the evaluators
    emitted values, and where each evaluator emitted one, their references
    are those of the enabled criteria, in the same order. *)
Lemma evaluateCriteria_report (outer inner : list nat) (this : Command) (report : AppQuality) :
  coherent this ->
  In report (Rx.emitted (fst (evaluateCriteria outer inner app0 managementApi elasticsearch this))) ->
  app report = app0
  /\ Forall (Rx.completes f) (enabledCriteriaOf this)
  /\ ascending (List.map QualityCriterion.reference (quality report))
  /\ List.length (quality report)
     = list_sum (List.map (emissions app0 managementApi elasticsearch) (enabledCriteriaOf this))
  /\ ((forall c, In c (enabledCriteriaOf this) ->
                 emissions app0 managementApi elasticsearch c = 1%nat) ->
      List.map QualityCriterion.reference (quality report)
      = List.map Criterion.reference (enabledCriteriaOf this)).
Proof.
  intros Hc Hin.
  destruct (evaluateCriteria_spec outer inner app0 managementApi elasticsearch this Hc)
    as (_ & _ & [(Hall & q & Hq & Hr) | (_ & e & Hr)]);
    rewrite Hr in Hin; simpl in Hin; [|contradiction].
  destruct Hin as [<-|[]]. simpl. split; [reflexivity|]. split; [exact Hall|].
  unfold byReference.
  rewrite (sort_map_key QualityCriterion.reference StringUtils.compare).
  split; [apply sort_references_ascending|]. split.
  - rewrite sort_length, (Permutation_length Hq). apply outputs_length.
  - intros H1.
    rewrite (sort_references_perm (Permutation_map QualityCriterion.reference Hq)).
    fold f. rewrite (outputs_references_single _ H1).
    apply sort_references_ascending_id, enabledCriteriaOf_ascending.
Qed.
End ReportFacts.

(** ** The pipeline *)

Lemma table_app (c1 c2 : list Display) : table (c1 ++ c2) = (table c1 ++ table c2)%list.
Proof. unfold table. apply flat_map_app. Qed.

Lemma sameRun_refl (this : Command) : coherent this -> sameRun this this.
Proof. unfold sameRun. auto. Qed.

Lemma sameRun_displayInfo (this st : Command) (line : string) :
  sameRun this st -> sameRun this (displayInfo line st).
Proof.
  intros (H1 & H2 & H3 & H4). unfold sameRun, displayInfo. repeat split.
  - exact H1.
  - rewrite <- H2. apply catalog_ext; reflexivity.
  - now apply display_coherent.
  - simpl. rewrite table_app, H4. simpl. apply app_nil_r.
Qed.

Lemma sameRun_sameCommand (this st st' : Command) :
  sameRun this st -> sameCommand st st' -> coherent st' -> sameRun this st'.
Proof.
  intros (H1 & H2 & H3 & H4) (S1 & S2 & S3) Hc. unfold sameRun.
  repeat split; congruence.
Qed.

Lemma sameRun_enabled (this st : Command) :
  sameRun this st -> enabledCriteriaOf st = enabledCriteriaOf this.
Proof. intros (H1 & H2 & _). now apply enabledCriteriaOf_ext. Qed.

Section PipelineFacts.
Variable s : Schedules.
Variable createInstance : string -> list string -> ElasticSearch.t.
Variable managementApi : ManagementApi.t.
Variable this : Command.
Hypothesis this_coherent : coherent this.

(** A property of every report of [evaluateCriteria] holds of every report
    that reaches the reporter. *)
Lemma pipeline_invariant (Q : AppQuality -> Prop) :
  (forall outer inner app0 st report,
      sameRun this st ->
      In report (Rx.emitted (fst (evaluateCriteria outer inner app0 managementApi
                                    (connect createInstance (argv this)) st))) ->
      Q report) ->
  sameRun this (snd (pipeline s createInstance managementApi this))
  /\ Forall Q (Rx.emitted (fst (pipeline s createInstance managementApi this))).
Proof.
  intros HQ. unfold pipeline, Rx.mergeMap.
  assert (H1 : snd (Rx.merging
                      (fun (_ : string) this0 =>
                         (inr (getApplications managementApi (argv this0)), this0))
                      (ofLogin s)
                      (Some (ManagementApi.login managementApi (username (argv this))
                               (password (argv this)))) [] this) = this).
  { apply merging_invariant with (I := fun st => st = this) (Q := fun _ : Application.t => True);
      [| reflexivity | constructor].
    intros a st ->. split; [reflexivity|].
    intros o _. apply Forall_forall. auto. }
  destruct (Rx.merging _ (ofLogin s) _ [] this) as [applications this1].
  simpl in H1. subst this1.
  apply merging_invariant with (I := sameRun this) (Q := Q);
    [| now apply sameRun_refl | constructor].
  intros a st Hst.
  pose proof (sameRun_displayInfo (qualityMetricsMessage a) Hst) as Hd.
  destruct Hd as (D1 & D2 & D3 & D4).
  pose proof (evaluateCriteria_spec (fst (ofEvaluation s a)) (snd (ofEvaluation s a)) a
                managementApi (connect createInstance (argv this))
                (displayInfo (qualityMetricsMessage a) st) D3) as (E1 & E2 & _).
  pose proof (HQ (fst (ofEvaluation s a)) (snd (ofEvaluation s a)) a
                (displayInfo (qualityMetricsMessage a) st)) as HQ'.
  destruct (evaluateCriteria _ _ a managementApi _ (displayInfo (qualityMetricsMessage a) st))
    as [report st']. simpl in *. split.
  - apply sameRun_sameCommand with (displayInfo (qualityMetricsMessage a) st);
      [unfold sameRun; auto | exact E1 | exact E2].
  - intros o Ho. injection Ho as <-. apply Forall_forall. intros r Hr.
    apply HQ'; [unfold sameRun; auto | exact Hr].
Qed.

(** The reporter never completes on a discovery that fails. *)
Lemma pipeline_failed_discovery (token : string) (e : Failure) :
  ManagementApi.login managementApi (username (argv this)) (password (argv this))
  = Rx.of_ token ->
  Rx.ending (getApplications managementApi (argv this)) = Some e ->
  Rx.ending (fst (pipeline s createInstance managementApi this)) <> None.
Proof.
  intros Hl He Hn. unfold pipeline in Hn. rewrite Hl, mergeMap_of in Hn.
  unfold Rx.mergeMap in Hn. apply merging_completes in Hn. congruence.
Qed.
End PipelineFacts.

(** ** The reporter *)

Lemma getEnabledCriteria_console (this : Command) :
  console (snd (getEnabledCriteria this)) = console this.
Proof.
  unfold getEnabledCriteria, getCriteria.
  destruct (_enabledCriteria this); [reflexivity|].
  destruct (_criteria this); reflexivity.
Qed.

Lemma doNext_accumulates (reports : list AppQuality)
      (reporter : ExtractApplicationQualityCSVReporter) :
  qualityApps (fold_left (fun r next => doNext next r) reports reporter)
  = (qualityApps reporter ++ reports)%list.
Proof.
  revert reporter. induction reports as [|x l IH]; intros reporter; simpl.
  - now rewrite app_nil_r.
  - rewrite IH. simpl. now rewrite <- app_assoc.
Qed.

Lemma displayRaw_lines (lines : list AppQuality) (this : Command) :
  console (fold_left (fun cliCommand appQuality => displayRaw (dataLine appQuality) cliCommand)
             lines this)
  = (console this ++ List.map (fun appQuality => Raw (dataLine appQuality)) lines)%list.
Proof.
  revert this. induction lines as [|x l IH]; intros this; simpl.
  - now rewrite app_nil_r.
  - rewrite IH. simpl. now rewrite <- app_assoc.
Qed.

Lemma doComplete_console (reporter : ExtractApplicationQualityCSVReporter) (this : Command) :
  console (doComplete reporter this)
  = (console this
     ++ Info "Applications quality, in CSV format:"
     :: Raw (headerLine (fst (getEnabledCriteria this)))
     :: List.map (fun appQuality => Raw (dataLine appQuality)) (qualityApps reporter))%list.
Proof.
  unfold doComplete, displayInfo. rewrite getEnabledCriteria_display.
  rewrite displayRaw_lines. simpl. rewrite getEnabledCriteria_console.
  now rewrite <- !app_assoc.
Qed.

Lemma subscribe_console (reports : Rx.Observable AppQuality) (this : Command) :
  console (snd (subscribe reports newReporter this))
  = match Rx.ending reports with
    | None =>
        (console this
         ++ Info "Applications quality, in CSV format:"
         :: Raw (headerLine (fst (getEnabledCriteria this)))
         :: List.map (fun appQuality => Raw (dataLine appQuality)) (Rx.emitted reports))%list
    | Some e => (console this ++ [Error e])%list
    end.
Proof.
  unfold subscribe; simpl. destruct (Rx.ending reports) as [e|].
  - reflexivity.
  - rewrite doComplete_console, doNext_accumulates. reflexivity.
Qed.

(** C4. The reporter keeps the reports in the order in which it receives
    them and displays nothing for them; when the observable completes it
    displays, after its announcement, one header line and then one data line
    for each report, in the order of their arrival; a data line is the
    identifier, the name and the [complied] flag of each result, joined by
    the separator. In the sample run, with runtime evaluation, the search
    answers for the Application discovered second before it answers for the
    first, and the line of the second comes first. *)
Theorem reporter_displays_table_on_completion
        (reports : list AppQuality) (this : Command) :
  qualityApps (fold_left (fun r next => doNext next r) reports newReporter) = reports
  /\ console (snd (subscribe (Rx.Obs reports None) newReporter this))
     = (console this
        ++ Info "Applications quality, in CSV format:"
        :: Raw (headerLine (fst (getEnabledCriteria this)))
        :: List.map (fun appQuality => Raw (dataLine appQuality)) reports)%list
  /\ table (console (snd (subscribe (Rx.Obs reports None) newReporter this)))
     = (table (console this)
        ++ headerLine (fst (getEnabledCriteria this)) :: List.map dataLine reports)%list
  /\ (forall appQuality,
         dataLine appQuality
         = Application.id (app appQuality) ++ ","
           ++ Application.name (app appQuality) ++ ","
           ++ Js.join ","
                (List.map (fun criteria => Js.boolToString (QualityCriterion.complied criteria))
                   (quality appQuality)))
  /\ List.map Application.id
       (Rx.emitted (Discovery.listResources Scenario.onePage
                      {| ManagementApi.byName := None |} 200 30000))
     = ["7f3a"; "42"]
  /\ table (console (definition Fleet.secondFirst (fun _ _ => Scenario.search [3])
                       Scenario.managementApi (newCommand Scenario.runtimeArgv)))
     = ["Application id,Application name,APP-DF01,APP-DF02,APP-R00";
        "42,Billing, Invoicing,false,false,true";
        "7f3a,Billing - Invoicing - FR,true,true,true"].
Proof.
  split; [apply (doNext_accumulates reports newReporter)|].
  split; [apply (subscribe_console (Rx.Obs reports None) this)|].
  split; [| repeat split].
  rewrite (subscribe_console (Rx.Obs reports None) this). simpl.
  rewrite table_app. simpl. do 2 f_equal.
  induction reports as [|x l IH]; simpl; [reflexivity | now rewrite IH].
Qed.

(** * The properties of the specification *)

Lemma definition_console (s : Schedules)
      (createInstance : string -> list string -> ElasticSearch.t)
      (managementApi : ManagementApi.t) (this : Command) :
  console (definition s createInstance managementApi this)
  = console (snd (subscribe (fst (pipeline s createInstance managementApi this)) newReporter
                    (snd (pipeline s createInstance managementApi this)))).
Proof.
  unfold definition. now destruct (pipeline s createInstance managementApi this).
Qed.

(** C1. In every run, whatever the schedules and the collaborators, the
    header that [definition] displays lists the references of the enabled
    criteria in ascending order, and the results of every report that becomes
    a data row are in ascending order of their references too, by the same
    comparison; where each evaluator emitted one value the two lists of
    references are equal, so that the columns of the row are those of the
    header. *)
Theorem header_and_rows_in_ascending_reference_order
        (s : Schedules) (createInstance : string -> list string -> ElasticSearch.t)
        (managementApi : ManagementApi.t) (this : Command) :
  coherent this ->
  let run := pipeline s createInstance managementApi this in
  let enabledCriteria := fst (getEnabledCriteria (snd run)) in
  (Rx.ending (fst run) = None ->
   console (definition s createInstance managementApi this)
   = (console (snd run)
      ++ Info "Applications quality, in CSV format:"
      :: Raw (headerLine enabledCriteria)
      :: List.map (fun appQuality => Raw (dataLine appQuality)) (Rx.emitted (fst run)))%list)
  /\ ascending (List.map Criterion.reference enabledCriteria)
  /\ forall report, In report (Rx.emitted (fst run)) ->
       ascending (List.map QualityCriterion.reference (quality report))
       /\ ((forall c, In c enabledCriteria ->
                      emissions (app report) managementApi
                        (connect createInstance (argv this)) c = 1%nat) ->
           List.map QualityCriterion.reference (quality report)
           = List.map Criterion.reference enabledCriteria).
Proof.
  intros Hc run enabledCriteria.
  destruct (pipeline_invariant s createInstance managementApi Hc
              (fun report =>
                 ascending (List.map QualityCriterion.reference (quality report))
                 /\ ((forall c, In c (enabledCriteriaOf this) ->
                                emissions (app report) managementApi
                                  (connect createInstance (argv this)) c = 1%nat) ->
                     List.map QualityCriterion.reference (quality report)
                     = List.map Criterion.reference (enabledCriteriaOf this))))
    as [Hrun Hall].
  { intros outer inner app0 st report Hst Hin.
    destruct Hst as (S1 & S2 & S3 & S4).
    destruct (evaluateCriteria_report app0 managementApi
                (connect createInstance (argv this)) outer inner st report S3 Hin)
      as (Happ & _ & Hasc & _ & Heq).
    rewrite (enabledCriteriaOf_ext this st S1 S2) in Heq. rewrite Happ.
    split; assumption. }
  fold run in Hrun, Hall.
  assert (He : enabledCriteria = enabledCriteriaOf this).
  { destruct Hrun as (S1 & S2 & S3 & S4). unfold enabledCriteria.
    destruct (getEnabledCriteria_spec (snd run) S3) as (E1 & _).
    rewrite E1. now apply enabledCriteriaOf_ext. }
  split; [| split].
  - intros Hend. rewrite definition_console. fold run.
    rewrite subscribe_console, Hend. reflexivity.
  - rewrite He. apply enabledCriteriaOf_ascending.
  - intros report Hin. rewrite He. rewrite Forall_forall in Hall. now apply Hall.
Qed.

(** A run of C1 on the sample inputs, with runtime evaluation. *)
Lemma header_and_rows_in_ascending_reference_order_witness :
  coherent (newCommand Scenario.runtimeArgv)
  /\ let run := pipeline Scenario.schedules (fun _ _ => Scenario.search [3])
                  Scenario.managementApi (newCommand Scenario.runtimeArgv) in
     List.length (Rx.emitted (fst run)) = 2%nat
     /\ ascending (List.map Criterion.reference (fst (getEnabledCriteria (snd run))))
     /\ forall report, In report (Rx.emitted (fst run)) ->
          ascending (List.map QualityCriterion.reference (quality report)).
Proof.
  split; [exact I|]. split; [reflexivity|].
  pose proof (header_and_rows_in_ascending_reference_order Scenario.schedules
                (fun _ _ => Scenario.search [3]) Scenario.managementApi
                (newCommand Scenario.runtimeArgv) I) as (_ & H1 & H2).
  split; [exact H1|]. intros report Hin. exact (proj1 (H2 report Hin)).
Defined.

(** The evaluators of the three criteria of the default catalog. *)
Lemma nameNamingConvention_emissions (app0 : Application.t) (managementApi : ManagementApi.t)
      (elasticsearch : option ElasticSearch.t) :
  emissions app0 managementApi elasticsearch nameNamingConvention = 1%nat.
Proof. reflexivity. Qed.

Lemma descriptionMinLength_emissions (app0 : Application.t) (managementApi : ManagementApi.t)
      (elasticsearch : option ElasticSearch.t) :
  Rx.completes (evaluateOne app0 managementApi elasticsearch) descriptionMinLength ->
  emissions app0 managementApi elasticsearch descriptionMinLength = 1%nat.
Proof.
  unfold Rx.completes, emissions, Rx.outputs, evaluateOne; simpl.
  destruct (Application.description app0); [reflexivity | contradiction].
Qed.

Lemma appUsage_emissions (a : Argv) (app0 : Application.t) (managementApi : ManagementApi.t)
      (es : ElasticSearch.t) :
  (forall query, Rx.emitted (ElasticSearch.searchHits es query) <> []) ->
  emissions app0 managementApi (Some es) (appUsage a) = 1%nat.
Proof.
  intros H. unfold emissions, Rx.outputs, evaluateOne; simpl.
  unfold Rx.take. set (o := ElasticSearch.searchHits es _).
  specialize (H _ : Rx.emitted o <> []).
  destruct (Rx.emitted o) as [|h l] eqn:E; [congruence|]. reflexivity.
Qed.

(** The enabled criteria of a command without a memoized catalog are among
    the three default ones. *)
Lemma default_enabledCriteria (this : Command) (c : Criterion.t) :
  _criteria this = None -> In c (enabledCriteriaOf this) ->
  c = nameNamingConvention \/ c = descriptionMinLength
  \/ (c = appUsage (argv this) /\ evaluate_runtime (argv this) = true).
Proof.
  unfold enabledCriteriaOf, catalog, getCriteria. intros ->. rewrite sort_In, filter_In.
  simpl. intros [[<-|[<-|[<-|[]]]] H]; auto.
  right; right. split; [reflexivity|].
  unfold isEnabled, runtimeEvaluationEnabled in H; simpl in H.
  now destruct (evaluate_runtime (argv this)).
Qed.

(** C2. Where the code departs from it: with runtime evaluation, for the
    sample Application and a search that completes without a hit, when
    everything resolves in the order of the source, [evaluateCriteria] emits
    a report of two results, for APP-DF01 and APP-DF02, while three criteria
    are enabled: the data line has four fields under a header of five. A
    search that emits a hit reporting a total of 0 gives the three results,
    the last one [false]. *)
Lemma report_with_fewer_results_than_criteria :
  let r := evaluateCriteria [] [] Scenario.billing Scenario.managementApi
             (Some (Scenario.search [])) (newCommand Scenario.runtimeArgv) in
  let r0 := evaluateCriteria [] [] Scenario.billing Scenario.managementApi
              (Some (Scenario.search [0])) (newCommand Scenario.runtimeArgv) in
  (exists report,
      In report (Rx.emitted (fst r))
      /\ List.length (quality report) = 2%nat
      /\ List.length (fst (getEnabledCriteria (snd r))) = 3%nat
      /\ List.map QualityCriterion.reference (quality report) = ["APP-DF01"; "APP-DF02"]
      /\ List.map Criterion.reference (fst (getEnabledCriteria (snd r)))
         = ["APP-DF01"; "APP-DF02"; "APP-R00"]
      /\ dataLine report = "7f3a,Billing - Invoicing - FR,true,true"
      /\ headerLine (fst (getEnabledCriteria (snd r)))
         = "Application id,Application name,APP-DF01,APP-DF02,APP-R00"
      /\ fields (dataLine report) = 4%nat
      /\ fields (headerLine (fst (getEnabledCriteria (snd r)))) = 5%nat)
  /\ (exists report,
         In report (Rx.emitted (fst r0))
         /\ List.length (quality report) = List.length (fst (getEnabledCriteria (snd r0)))
         /\ dataLine report = "7f3a,Billing - Invoicing - FR,true,true,false").
Proof.
  split.
  - eexists. split; [left; reflexivity|]. repeat split.
  - eexists. split; [left; reflexivity|]. split; reflexivity.
Qed.

(** The number of results of a report: one for each value that the
    evaluators of the enabled criteria emitted, whatever the schedules; as
    many as enabled criteria when each evaluator emits one value, which those
    of the default catalog do whenever a report is produced and the search of
    APP-R00 emits a hit. *)
Theorem report_holds_one_result_per_emitted_value
        (outer inner : list nat) (app0 : Application.t) (managementApi : ManagementApi.t)
        (elasticsearch : option ElasticSearch.t) (this : Command) :
  coherent this ->
  let r := evaluateCriteria outer inner app0 managementApi elasticsearch this in
  let enabledCriteria := fst (getEnabledCriteria (snd r)) in
  forall report, In report (Rx.emitted (fst r)) ->
    List.length (quality report)
    = list_sum (List.map (emissions app0 managementApi elasticsearch) enabledCriteria)
    /\ ((forall c, In c enabledCriteria ->
                   emissions app0 managementApi elasticsearch c = 1%nat) ->
        List.length (quality report) = List.length enabledCriteria)
    /\ (_criteria this = None ->
        evaluate_runtime (argv this) = false
        \/ (exists es, elasticsearch = Some es
                       /\ forall query, Rx.emitted (ElasticSearch.searchHits es query) <> []) ->
        List.length (quality report) = List.length enabledCriteria).
Proof.
  intros Hc r enabledCriteria report Hin.
  destruct (evaluateCriteria_report app0 managementApi elasticsearch outer inner this report
              Hc Hin) as (_ & Hall & _ & Hlen & _).
  assert (He : enabledCriteria = enabledCriteriaOf this).
  { unfold enabledCriteria, r.
    destruct (evaluateCriteria_spec outer inner app0 managementApi elasticsearch this Hc)
      as (S1 & S2 & _).
    destruct (getEnabledCriteria_spec _ S2) as (E1 & _). rewrite E1.
    now apply sameCommand_enabled. }
  rewrite He. split; [exact Hlen|].
  assert (Hones : (forall c, In c (enabledCriteriaOf this) ->
                             emissions app0 managementApi elasticsearch c = 1%nat) ->
                  List.length (quality report) = List.length (enabledCriteriaOf this)).
  { intros H. rewrite Hlen. now apply list_sum_ones. }
  split; [exact Hones|].
  intros Hnone Hrun. apply Hones. intros c Hc'.
  destruct (default_enabledCriteria this c Hnone Hc') as [->|[->|[-> Hrt]]].
  - apply nameNamingConvention_emissions.
  - apply descriptionMinLength_emissions.
    rewrite Forall_forall in Hall. now apply Hall.
  - destruct Hrun as [Hrun|(es & -> & Hes)]; [congruence|].
    now apply appUsage_emissions.
Qed.

(** The count on the sample inputs, when the search collaborator reports
    three matches. *)
Lemma report_holds_one_result_per_emitted_value_witness :
  coherent (newCommand Scenario.runtimeArgv)
  /\ let r := evaluateCriteria [] [2; 0; 1]%nat Scenario.billing Scenario.managementApi
                (Some (Scenario.search [3])) (newCommand Scenario.runtimeArgv) in
     exists report,
       In report (Rx.emitted (fst r))
       /\ List.length (quality report) = List.length (fst (getEnabledCriteria (snd r))).
Proof.
  split; [exact I|].
  intros r. eexists. split; [left; reflexivity|].
  refine (proj2 (proj2 (report_holds_one_result_per_emitted_value [] [2; 0; 1]%nat
            Scenario.billing Scenario.managementApi (Some (Scenario.search [3]))
            (newCommand Scenario.runtimeArgv) I _ (or_introl eq_refl))) eq_refl _).
  right. eexists. split; [reflexivity|]. intros query. discriminate.
Defined.

Lemma isEnabled_spec (runtime : bool) (c : Criterion.t) :
  isEnabled runtime c = true
  <-> Criterion.enabled c = true /\ (Criterion.atRuntime c = false \/ runtime = true).
Proof.
  unfold isEnabled.
  destruct (Criterion.enabled c), (Criterion.atRuntime c), runtime; simpl; intuition congruence.
Qed.

Lemma enabledCriteriaOf_In (this : Command) (c : Criterion.t) :
  In c (enabledCriteriaOf this)
  <-> In c (List.map snd (catalog this))
      /\ Criterion.enabled c = true
      /\ (Criterion.atRuntime c = false \/ runtimeEvaluationEnabled this = true).
Proof.
  unfold enabledCriteriaOf. rewrite sort_In, filter_In, isEnabled_spec. reflexivity.
Qed.

Lemma default_enabled_references (a : Argv) :
  List.map Criterion.reference (fst (getEnabledCriteria (newCommand a)))
  = if evaluate_runtime a then ["APP-DF01"; "APP-DF02"; "APP-R00"]
    else ["APP-DF01"; "APP-DF02"].
Proof.
  unfold getEnabledCriteria, getCriteria, runtimeEvaluationEnabled, isEnabled; simpl.
  destruct (evaluate_runtime a); reflexivity.
Qed.

(** C3. A criterion is among the enabled criteria exactly when it is in the
    catalog, its [enabled] flag is set, and it is not a runtime criterion or
    runtime evaluation is on. So, for one catalog, the enabled criteria with
    runtime evaluation are those without it and the enabled runtime criteria,
    none of which is enabled without it. For the default catalog: APP-DF01
    and APP-DF02, and APP-R00 with runtime evaluation only. *)
Theorem enabled_criteria_are_the_enabled_applicable_ones :
  (forall this c,
      coherent this ->
      (In c (fst (getEnabledCriteria this))
       <-> In c (List.map snd (catalog this))
           /\ Criterion.enabled c = true
           /\ (Criterion.atRuntime c = false \/ runtimeEvaluationEnabled this = true)))
  /\ (forall off on c,
         coherent off -> coherent on -> catalog on = catalog off ->
         runtimeEvaluationEnabled off = false -> runtimeEvaluationEnabled on = true ->
         (In c (fst (getEnabledCriteria on))
          <-> In c (fst (getEnabledCriteria off))
              \/ (In c (List.map snd (catalog off))
                  /\ Criterion.enabled c = true /\ Criterion.atRuntime c = true))
         /\ (In c (fst (getEnabledCriteria off)) -> Criterion.atRuntime c = false))
  /\ (forall a,
         List.map Criterion.reference (fst (getEnabledCriteria (newCommand a)))
         = if evaluate_runtime a then ["APP-DF01"; "APP-DF02"; "APP-R00"]
           else ["APP-DF01"; "APP-DF02"]).
Proof.
  split; [| split].
  - intros this c Hc.
    destruct (getEnabledCriteria_spec this Hc) as (-> & _). apply enabledCriteriaOf_In.
  - intros off on c Hoff Hon Hcat Hf Ht.
    destruct (getEnabledCriteria_spec off Hoff) as (-> & _).
    destruct (getEnabledCriteria_spec on Hon) as (-> & _).
    rewrite !enabledCriteriaOf_In, Hcat, Hf, Ht.
    destruct (Criterion.atRuntime c); intuition congruence.
  - apply default_enabled_references.
Qed.

(** C3 on two commands that share a catalog of two criteria, one of them a
    runtime criterion. *)
Lemma enabled_criteria_are_the_enabled_applicable_ones_witness :
  let shared := Some [("nameNamingConvention", nameNamingConvention);
                      ("appUsage", appUsage Scenario.runtimeArgv)] in
  let off := {| argv := defaultArgv "requests"; _criteria := shared;
                _enabledCriteria := None; console := [] |} in
  let on := {| argv := Scenario.runtimeArgv; _criteria := shared;
               _enabledCriteria := None; console := [] |} in
  coherent off /\ coherent on /\ catalog on = catalog off
  /\ runtimeEvaluationEnabled off = false /\ runtimeEvaluationEnabled on = true
  /\ In (appUsage Scenario.runtimeArgv) (fst (getEnabledCriteria on))
  /\ (In (appUsage Scenario.runtimeArgv) (fst (getEnabledCriteria off)) -> False).
Proof.
  intros shared off on.
  assert (Hoff : coherent off) by exact I.
  assert (Hon : coherent on) by exact I.
  assert (Hcat : catalog on = catalog off) by reflexivity.
  assert (Hf : runtimeEvaluationEnabled off = false) by reflexivity.
  assert (Ht : runtimeEvaluationEnabled on = true) by reflexivity.
  destruct enabled_criteria_are_the_enabled_applicable_ones as (_ & H & _).
  destruct (H off on (appUsage Scenario.runtimeArgv) Hoff Hon Hcat Hf Ht) as [H1 H2].
  repeat split; try assumption.
  - apply H1. right. split; [right; left; reflexivity | split; reflexivity].
  - intros Hin. apply H2 in Hin. discriminate.
Defined.

(** C5. The minimum-length evaluator emits whether the minimum is at most the
    actual length; for APP-DF02 the minimum is 30 and the length is that of
    the description: lengths 29 and 30 give [false] and [true]. *)
Theorem minimum_length_complies_iff_long_enough :
  (forall expected actual,
      evaluateMinimumLength expected actual = Rx.Obs [expected <=? actual] None
      /\ ((expected <=? actual) = true <-> expected <= actual))
  /\ DESCRIPTION_MIN_LENGTH = 30
  /\ (forall app0 managementApi elasticsearch d,
         Application.description app0 = Some d ->
         result (Criterion.evaluate descriptionMinLength app0 managementApi elasticsearch)
         = inr (Rx.Obs [30 <=? Z.of_nat (String.length d)] None))
  /\ evaluateMinimumLength DESCRIPTION_MIN_LENGTH 29 = Rx.Obs [false] None
  /\ evaluateMinimumLength DESCRIPTION_MIN_LENGTH 30 = Rx.Obs [true] None
  /\ (forall managementApi elasticsearch,
         result (Criterion.evaluate descriptionMinLength
                   (Application.Make "1" "Short" (Some "12345678901234567890123456789"))
                   managementApi elasticsearch)
         = inr (Rx.Obs [false] None)
         /\ result (Criterion.evaluate descriptionMinLength
                      (Application.Make "2" "Long" (Some "123456789012345678901234567890"))
                      managementApi elasticsearch)
            = inr (Rx.Obs [true] None)).
Proof.
  split; [| split; [reflexivity | split; [| repeat split]]].
  - intros expected actual. split; [reflexivity | apply Z.leb_le].
  - intros app0 managementApi elasticsearch d Hd. simpl. now rewrite Hd.
Qed.

(** The query of the runtime-usage evaluator. *)
Lemma evaluateUsage_spec (a : Argv) (app0 : Application.t) (managementApi : ManagementApi.t)
      (es : ElasticSearch.t) :
  let query := {|
    ElasticSearch.index := elasticsearch_index a;
    ElasticSearch.from := evaluate_runtime_from a;
    ElasticSearch.to := evaluate_runtime_to a;
    ElasticSearch.terms := [("application", Application.id app0)];
    ElasticSearch.pageSize := 1 |} in
  evaluateUsage a app0 managementApi (Some es)
  = {| issued := [query];
       result :=
         inr (Rx.map (fun hit => ElasticSearch.total (ElasticSearch.meta hit) >? 0)
                (Rx.take 1 (ElasticSearch.searchHits es query))) |}.
Proof. reflexivity. Qed.

(** C7. The runtime-usage evaluator issues one query: on the index and the
    time window of the command line, for the events whose [application] is
    the identifier of the Application, and for one hit at most. When the
    search collaborator answers with a hit, it emits one value: whether the
    total that the hit reports is greater than zero. A total of 0 gives
    [false], a total of 3 gives [true]. *)
Theorem usage_complies_iff_total_positive
        (a : Argv) (app0 : Application.t) (managementApi : ManagementApi.t)
        (es : ElasticSearch.t) (hit : ElasticSearch.Hit) (rest : list ElasticSearch.Hit) :
  let query := {|
    ElasticSearch.index := elasticsearch_index a;
    ElasticSearch.from := evaluate_runtime_from a;
    ElasticSearch.to := evaluate_runtime_to a;
    ElasticSearch.terms := [("application", Application.id app0)];
    ElasticSearch.pageSize := 1 |} in
  Rx.emitted (ElasticSearch.searchHits es query) = hit :: rest ->
  issued (evaluateUsage a app0 managementApi (Some es)) = [query]
  /\ (exists complied,
         result (evaluateUsage a app0 managementApi (Some es))
         = inr (Rx.Obs [complied] None)
         /\ (complied = true <-> ElasticSearch.total (ElasticSearch.meta hit) > 0))
  /\ result (evaluateUsage a app0 managementApi (Some (Scenario.search [0])))
     = inr (Rx.Obs [false] None)
  /\ result (evaluateUsage a app0 managementApi (Some (Scenario.search [3])))
     = inr (Rx.Obs [true] None).
Proof.
  intros query Hhit. rewrite evaluateUsage_spec. fold query. simpl.
  split; [reflexivity|]. split; [| split; reflexivity].
  exists (ElasticSearch.total (ElasticSearch.meta hit) >? 0). split.
  - unfold Rx.map, Rx.take. rewrite Hhit. reflexivity.
  - rewrite Z.gtb_ltb, Z.ltb_lt. lia.
Qed.

(** C7 for the sample Application and a collaborator that reports three
    matches. *)
Lemma usage_complies_iff_total_positive_witness :
  exists complied,
    result (evaluateUsage Scenario.runtimeArgv Scenario.billing Scenario.managementApi
              (Some (Scenario.search [3])))
    = inr (Rx.Obs [complied] None)
    /\ (complied = true <-> 3 > 0).
Proof.
  exact (proj1 (proj2 (usage_complies_iff_total_positive Scenario.runtimeArgv
                         Scenario.billing Scenario.managementApi (Scenario.search [3])
                         (rest:=[]) eq_refl))).
Defined.

(** ** The first evaluator that throws *)

Section FirstThrow.
Variables S A B : Type.
Variable f : A -> Failure + Rx.Observable B.
Let project (a : A) (st : S) : (Failure + Rx.Observable B) * S := (f a, st).

Lemma drainSource_first_throw (pre post : list A) (a : A) (e : Failure)
      (srcEnd : option Failure) (st : S) :
  Forall (Rx.completes f) pre -> f a = inl e ->
  Rx.ending (fst (Rx.drainSource project (pre ++ a :: post) srcEnd st)) = Some e.
Proof.
  intros Hpre Ha. induction Hpre as [|x pre Hx Hpre IH]; simpl.
  - change (project a st) with (f a, st). now rewrite Ha.
  - change (project x st) with (f x, st). unfold Rx.completes in Hx.
    destruct (f x) as [err|o]; [contradiction|]. rewrite Hx. exact IH.
Qed.

(** When the projection throws on a value of the source, and every inner
    observable subscribed before completes, the merge fails with what was
    thrown, whatever the schedule. *)
Lemma merging_first_throw (sched : list nat) :
  forall (pre post : list A) (a : A) (e : Failure) (srcEnd : option Failure)
         (inners : list (Rx.Observable B)) (st : S),
    Forall (Rx.completes f) pre -> f a = inl e ->
    Forall (fun o => Rx.ending o = None) inners ->
    Rx.ending (fst (Rx.merging project sched (Some (Rx.Obs (pre ++ a :: post) srcEnd))
                      inners st)) = Some e.
Proof.
  induction sched as [|n sched IH]; intros pre post a e srcEnd inners st Hpre Ha Hin.
  - simpl. unfold Rx.drain.
    destruct (drainInners_spec inners) as [D1 _]. rewrite (proj2 D1 Hin). simpl.
    now apply drainSource_first_throw.
  - cbn [Rx.merging].
    destruct (Nat.modulo n (1 + List.length inners)) as [|j] eqn:Ei.
    + cbn [Rx.emitted Rx.ending]. destruct Hpre as [|x pre Hx Hpre]; simpl.
      * change (project a st) with (f a, st). now rewrite Ha.
      * change (project x st) with (f x, st). unfold Rx.completes in Hx.
        destruct (f x) as [err|o] eqn:Ef; [contradiction|]. cbv beta iota.
        apply IH; auto. apply Forall_app. split; [exact Hin | constructor; auto].
    + destruct (nth_error inners j) as [o|] eqn:Eo;
        [| exfalso; revert Eo; eapply choice_in_range; [reflexivity | exact Ei]].
      destruct (Rx.emitted o) as [|x xs] eqn:Ex.
      * destruct (Rx.ending o) as [err|] eqn:Ee.
        -- exfalso. eapply inner_fails; eauto.
        -- apply IH; auto. now apply (inner_completes j inners Eo Ex Ee).
      * unfold Rx.prepend; simpl. apply IH; auto.
        now apply (inner_emits j inners Eo Ex).
Qed.
End FirstThrow.

Lemma default_enabledCriteriaOf (a : Argv) :
  enabledCriteriaOf (newCommand a)
  = if evaluate_runtime a then [nameNamingConvention; descriptionMinLength; appUsage a]
    else [nameNamingConvention; descriptionMinLength].
Proof.
  unfold enabledCriteriaOf, catalog, getCriteria, runtimeEvaluationEnabled, isEnabled; simpl.
  destruct (evaluate_runtime a); reflexivity.
Qed.

(** C9. For an Application without a description, the evaluator of APP-DF02
    throws a [TypeError] and returns no observable, so no compliance boolean,
    [false] or [true]; and [evaluateCriteria] with the default catalog then
    fails with that error and produces no report, whatever the schedules and
    the other evaluators. *)
Theorem missing_description_fails_evaluation
        (app0 : Application.t) (managementApi : ManagementApi.t)
        (elasticsearch : option ElasticSearch.t) :
  Application.description app0 = None ->
  result (Criterion.evaluate descriptionMinLength app0 managementApi elasticsearch)
  = inl (TypeError "Cannot read property 'length' of undefined")
  /\ (forall o,
         result (Criterion.evaluate descriptionMinLength app0 managementApi elasticsearch)
         <> inr o)
  /\ forall outer inner a,
      fst (evaluateCriteria outer inner app0 managementApi elasticsearch (newCommand a))
      = Rx.Obs [] (Some (TypeError "Cannot read property 'length' of undefined")).
Proof.
  intros Hd.
  assert (H1 : result (Criterion.evaluate descriptionMinLength app0 managementApi elasticsearch)
               = inl (TypeError "Cannot read property 'length' of undefined")).
  { simpl. now rewrite Hd. }
  split; [exact H1|]. split; [intros o; rewrite H1; discriminate|].
  intros outer inner a.
  unfold evaluateCriteria. rewrite mergeMap_of.
  destruct (getEnabledCriteria_spec (newCommand a) I) as (E1 & _).
  destruct (getEnabledCriteria (newCommand a)) as [enabledCriteria this1].
  simpl in E1. subst enabledCriteria. unfold Rx.mergeMap.
  set (f := evaluateOne app0 managementApi elasticsearch).
  assert (Hend : Rx.ending (fst (Rx.merging (fun criteria (this0 : Command) => (f criteria, this0))
                                   inner (Some (Rx.from (enabledCriteriaOf (newCommand a))))
                                   [] this1))
                 = Some (TypeError "Cannot read property 'length' of undefined")).
  { rewrite default_enabledCriteriaOf. unfold Rx.from.
    assert (Hthrow : f descriptionMinLength
                     = inl (TypeError "Cannot read property 'length' of undefined")).
    { unfold f, evaluateOne. now rewrite H1. }
    assert (Hname : Forall (Rx.completes f) [nameNamingConvention]).
    { constructor; [reflexivity | constructor]. }
    destruct (evaluate_runtime a).
    - apply (@merging_first_throw Command _ _ f inner [nameNamingConvention]
               [appUsage a] descriptionMinLength _ None [] this1 Hname Hthrow (Forall_nil _)).
    - apply (@merging_first_throw Command _ _ f inner [nameNamingConvention]
               [] descriptionMinLength _ None [] this1 Hname Hthrow (Forall_nil _)). }
  destruct (Rx.merging _ inner _ [] this1) as [results this2]. simpl in Hend |- *.
  unfold Rx.reduce. rewrite Hend. reflexivity.
Qed.

(** C9 on the sample Application that has no description. *)
Lemma missing_description_fails_evaluation_witness :
  Application.description Scenario.undescribed = None
  /\ fst (evaluateCriteria [1; 0]%nat [0; 2; 1]%nat Scenario.undescribed Scenario.managementApi
            (Some (Scenario.search [3])) (newCommand Scenario.runtimeArgv))
     = Rx.Obs [] (Some (TypeError "Cannot read property 'length' of undefined")).
Proof.
  split; [reflexivity|].
  exact (proj2 (proj2 (missing_description_fails_evaluation Scenario.undescribed
                         Scenario.managementApi (Some (Scenario.search [3])) eq_refl))
           [1; 0]%nat [0; 2; 1]%nat Scenario.runtimeArgv).
Defined.

(** ** Fields of a line *)



Lemma boolToString_occurrences (b : bool) : Js.occurrences "," (Js.boolToString b) = 0%nat.
Proof. destruct b; reflexivity. Qed.





(** ** Discovery *)

Lemma listing_unanswered (delay timeout clock : Z) (content : list Application.t)
      (pages : list Discovery.Page) :
  Discovery.listing delay timeout clock
    ({| Discovery.latency := None; Discovery.content := content |} :: pages)
  = Rx.Obs [] (Some Timeout).
Proof. reflexivity. Qed.

Lemma listing_late (delay timeout clock l : Z) (content : list Application.t)
      (pages : list Discovery.Page) :
  timeout < clock + l ->
  Discovery.listing delay timeout clock
    ({| Discovery.latency := Some l; Discovery.content := content |} :: pages)
  = Rx.Obs [] (Some Timeout).
Proof.
  intros H. simpl. destruct (Z.ltb_spec timeout (clock + l)); [reflexivity | lia].
Qed.

(** C8. Without [filter-by-id], the Applications come from
    [listApplications], called with the name filter, the delay period of the
    command line (200 by default) and a timeout of 30000. When that listing
    ends on [Timeout], the command displays the failure and no line of the
    table, whatever was discovered before; when nothing was, the failure is
    the [Timeout]. The listing of the discovery stream ends so, with no
    Application, when the first page is never answered or is answered after
    the timeout; and with the Applications emitted until then, and none
    after, when the timeout elapses during a page. *)
Theorem listing_timeout_fails_the_run_without_table
        (s : Schedules) (createInstance : string -> list string -> ElasticSearch.t)
        (managementApi : ManagementApi.t) (this : Command) (token : string) :
  coherent this ->
  filter_by_id (argv this) = None \/ filter_by_id (argv this) = Some "" ->
  ManagementApi.login managementApi (username (argv this)) (password (argv this))
  = Rx.of_ token ->
  let discovery :=
    ManagementApi.listApplications managementApi
      {| ManagementApi.byName := filter_by_name (argv this) |}
      (delay_period (argv this)) 30000 in
  Rx.ending discovery = Some Timeout ->
  getApplications managementApi (argv this) = discovery
  /\ table (console (definition s createInstance managementApi this)) = table (console this)
  /\ (exists displayed e,
         console (definition s createInstance managementApi this)
         = (displayed ++ [Error e])%list)
  /\ (Rx.emitted discovery = [] ->
      console (definition s createInstance managementApi this)
      = (console this ++ [Error Timeout])%list)
  /\ (forall index, delay_period (defaultArgv index) = 200)
  /\ LIST_APPLICATIONS_TIMEOUT = 30000
  /\ (forall service filters delay content pages,
         service filters = {| Discovery.latency := None; Discovery.content := content |} :: pages ->
         Discovery.listResources service filters delay 30000 = Rx.Obs [] (Some Timeout))
  /\ (forall service filters delay l content pages,
         service filters = {| Discovery.latency := Some l; Discovery.content := content |} :: pages ->
         30000 < l ->
         Discovery.listResources service filters delay 30000 = Rx.Obs [] (Some Timeout))
  /\ Discovery.listResources
       (fun _ => [{| Discovery.latency := Some 29500;
                     Discovery.content :=
                       [Scenario.billing; Scenario.listed; Scenario.undescribed] |}])
       {| ManagementApi.byName := None |} 200 30000
     = Rx.Obs [Scenario.billing; Scenario.listed] (Some Timeout).
Proof.
  intros Hc Hmode Hlogin discovery Hend.
  assert (Hget : getApplications managementApi (argv this) = discovery).
  { unfold getApplications. destruct Hmode as [-> | ->]; reflexivity. }
  split; [exact Hget|].
  pose proof (pipeline_invariant s createInstance managementApi Hc (fun _ => True)
                (fun _ _ _ _ _ _ _ => I)) as [(_ & _ & _ & Htable) _].
  assert (Hfail : Rx.ending (fst (pipeline s createInstance managementApi this)) <> None).
  { apply pipeline_failed_discovery with token Timeout; [exact Hlogin|].
    now rewrite Hget. }
  rewrite definition_console, subscribe_console.
  destruct (Rx.ending (fst (pipeline s createInstance managementApi this))) as [e|] eqn:Ee;
    [| congruence].
  split; [| split; [| split; [| repeat split]]].
  - rewrite table_app, Htable. simpl. apply app_nil_r.
  - eauto.
  - intros Hnone. revert Ee. unfold pipeline.
    rewrite Hlogin, mergeMap_of, Hget.
    assert (Hd : discovery = Rx.Obs [] (Some Timeout)).
    { destruct discovery as [l en]. simpl in *. now subst. }
    rewrite Hd, mergeMap_failed_source. simpl. now intros [= ->].
  - intros service filters delay content pages Hs.
    unfold Discovery.listResources. now rewrite Hs.
  - intros service filters delay l content pages Hs Hl.
    unfold Discovery.listResources. rewrite Hs. apply listing_late. lia.
Qed.

(** C8 for a management service that never answers, with the default delay
    period. *)
Lemma listing_timeout_fails_the_run_without_table_witness :
  console (definition Scenario.schedules (fun _ _ => Scenario.search [3])
             Scenario.unreachable (newCommand (defaultArgv "requests")))
  = [Error Timeout].
Proof.
  refine (proj1 (proj2 (proj2 (proj2
            (listing_timeout_fails_the_run_without_table Scenario.schedules
               (fun _ _ => Scenario.search [3]) Scenario.unreachable
               (newCommand (defaultArgv "requests")) (token:="token") I (or_introl eq_refl)
               eq_refl eq_refl)))) eq_refl).
Defined.

(** ** Regular expressions *)

Lemma append_nil_r (s : string) : s ++ "" = s.
Proof. induction s as [|c s IH]; simpl; [reflexivity | now rewrite IH]. Qed.

Lemma append_assoc (s t u : string) : (s ++ t) ++ u = s ++ t ++ u.
Proof. induction s as [|c s IH]; simpl; [reflexivity | now rewrite IH]. Qed.

Lemma append_empty (s t : string) : s ++ t = "" -> s = "" /\ t = "".
Proof. destruct s; simpl; [auto | discriminate]. Qed.

Lemma nullable_spec (r : RegExp.regex) : RegExp.nullable r = true <-> RegExp.matches r "".
Proof.
  induction r as [| |p|r1 IH1 r2 IH2|r1 IH1 r2 IH2|r IH]; simpl.
  - split; [discriminate | intros H; inversion H].
  - split; [constructor | reflexivity].
  - split; [discriminate | intros H; inversion H].
  - rewrite andb_true_iff, IH1, IH2. split.
    + intros [H1 H2]. apply (RegExp.MSeq H1 H2).
    + intros H. inversion H as [| |? ? s1 s2 H1 H2| | | |]; subst.
      match goal with E : _ ++ _ = _ |- _ => apply append_empty in E as [-> ->] end.
      auto.
  - rewrite orb_true_iff, IH1, IH2. split.
    + intros [H|H]; [apply RegExp.MAltL | apply RegExp.MAltR]; exact H.
    + intros H. inversion H; subst; auto.
  - split; [constructor | reflexivity].
Qed.

(** A repetition that matches a non-empty string matches a non-empty first
    piece. *)
Lemma star_cons (r : RegExp.regex) (c : ascii) (s : string) :
  RegExp.matches (RegExp.Star r) (String c s) ->
  exists s1 s2, s = s1 ++ s2 /\ RegExp.matches r (String c s1)
                /\ RegExp.matches (RegExp.Star r) s2.
Proof.
  remember (RegExp.Star r) as r' eqn:Er. remember (String c s) as t eqn:Et.
  intros H. revert c s Et.
  induction H as [| | | | | |r0 s1 s2 H1 _ H2 IH2]; intros c0 s0 Et; try discriminate.
  injection Er as ->. destruct s1 as [|c1 s1]; simpl in Et.
  - apply IH2; auto.
  - injection Et as <- <-. eauto.
Qed.

Lemma deriv_spec (r : RegExp.regex) :
  forall c s, RegExp.matches (RegExp.deriv c r) s <-> RegExp.matches r (String c s).
Proof.
  induction r as [| |p|r1 IH1 r2 IH2|r1 IH1 r2 IH2|r IH]; intros c s; simpl.
  - split; intros H; inversion H.
  - split; intros H; inversion H.
  - destruct (p c) eqn:E; split; intros H; inversion H; subst.
    + now constructor.
    + constructor.
    + congruence.
  - assert (Hseq : RegExp.matches (RegExp.Seq (RegExp.deriv c r1) r2) s
                   <-> exists s1 s2, s = s1 ++ s2 /\ RegExp.matches r1 (String c s1)
                                     /\ RegExp.matches r2 s2).
    { split.
      - intros H. inversion H as [| |? ? s1 s2 H1 H2| | | |]; subst.
        exists s1, s2. rewrite <- IH1. auto.
      - intros (s1 & s2 & -> & H1 & H2). apply RegExp.MSeq; [now apply IH1 | exact H2]. }
    assert (Hinv : RegExp.matches (RegExp.Seq r1 r2) (String c s)
                   <-> (exists s1 s2, s = s1 ++ s2 /\ RegExp.matches r1 (String c s1)
                                      /\ RegExp.matches r2 s2)
                       \/ (RegExp.matches r1 "" /\ RegExp.matches r2 (String c s))).
    { split.
      - intros H. inversion H as [| |? ? s1 s2 H1 H2| | | |]; subst.
        match goal with E : _ ++ _ = _ |- _ => rename E into Es end.
        destruct s1 as [|c1 s1]; simpl in Es.
        + subst s2. right. auto.
        + injection Es as <- <-. left. eauto.
      - intros [(s1 & s2 & -> & H1 & H2) | [H1 H2]].
        + apply (RegExp.MSeq H1 H2).
        + apply (RegExp.MSeq H1 H2). }
    rewrite Hinv. destruct (RegExp.nullable r1) eqn:En.
    + split.
      * intros H. inversion H; subst.
        -- left. now apply Hseq.
        -- right. split; [now apply nullable_spec | now apply IH2].
      * intros [H | [_ H]].
        -- apply RegExp.MAltL. now apply Hseq.
        -- apply RegExp.MAltR. now apply IH2.
    + rewrite Hseq. split; [auto|]. intros [H | [H _]]; [exact H|].
      apply nullable_spec in H. congruence.
  - split; intros H; inversion H; subst.
    + apply RegExp.MAltL. now apply IH1.
    + apply RegExp.MAltR. now apply IH2.
    + apply RegExp.MAltL. now apply IH1.
    + apply RegExp.MAltR. now apply IH2.
  - split.
    + intros H. inversion H as [| |? ? s1 s2 H1 H2| | | |]; subst.
      apply (RegExp.MStarS (s1:=String c s1)); [now apply IH | exact H2].
    + intros H. apply star_cons in H as (s1 & s2 & -> & H1 & H2).
      apply RegExp.MSeq; [now apply IH | exact H2].
Qed.

(** The matcher decides the declarative meaning. *)
Lemma fullMatch_spec (s : string) :
  forall r, RegExp.fullMatch r s = true <-> RegExp.matches r s.
Proof.
  induction s as [|c s IH]; intros r; simpl.
  - apply nullable_spec.
  - rewrite IH. apply deriv_spec.
Qed.

(** With both anchors, [test] is a match of the whole string. *)
Lemma test_anchored (r : RegExp.regex) (s : string) :
  RegExp.test (RegExp.Pattern true r true) s = true <-> RegExp.matches r s.
Proof.
  unfold RegExp.test; simpl. rewrite fullMatch_spec. split.
  - intros H. inversion H as [| |? ? s1 s2 H1 H2| | | |]; subst.
    inversion H1; subst. inversion H2 as [| |? ? s3 s4 H3 H4| | | |]; subst.
    inversion H4; subst. simpl. now rewrite append_nil_r.
  - intros H. apply (RegExp.MSeq (s1:="") RegExp.MEmpty).
    rewrite <- (append_nil_r s). apply (RegExp.MSeq H RegExp.MEmpty).
Qed.

(** ** The naming convention *)

Section NamingConvention.
Let wordR : RegExp.regex := RegExp.Plus (RegExp.Class RegExp.wordChar).
Let spaceR : RegExp.regex := RegExp.Lit " ".
Let dashR : RegExp.regex :=
  RegExp.Seq (RegExp.Lit " ") (RegExp.Seq (RegExp.Lit "-") (RegExp.Lit " ")).
Let wordsR : RegExp.regex := RegExp.Seq wordR (RegExp.Star (RegExp.Seq spaceR wordR)).

Lemma lit_matches (c : ascii) (s : string) :
  RegExp.matches (RegExp.Lit c) s <-> s = String c "".
Proof.
  unfold RegExp.Lit. split.
  - intros H. inversion H as [|p c' Hp| | | | |]; subst.
    apply Ascii.eqb_eq in Hp. now subst.
  - intros ->. constructor. apply Ascii.eqb_refl.
Qed.

Lemma star_class_word (s : string) :
  RegExp.matches (RegExp.Star (RegExp.Class RegExp.wordChar)) s -> s = "" \/ word s.
Proof.
  remember (RegExp.Star (RegExp.Class RegExp.wordChar)) as r eqn:Er.
  induction 1 as [| | | | | |r0 s1 s2 H1 _ H2 IH2]; try discriminate; [now left|].
  injection Er as ->. right. inversion H1 as [|p c Hp| | | | |]; subst. simpl.
  destruct (IH2 eq_refl) as [->|Hw]; [now apply word_one | now apply word_more].
Qed.

Lemma word_matches (s : string) : RegExp.matches wordR s <-> word s.
Proof.
  unfold wordR, RegExp.Plus. split.
  - intros H. inversion H as [| |? ? s1 s2 H1 H2| | | |]; subst.
    inversion H1 as [|p c Hp| | | | |]; subst. simpl.
    destruct (star_class_word H2) as [->|Hw]; [now apply word_one | now apply word_more].
  - induction 1 as [c Hc|c w Hc Hw IH].
    + apply (RegExp.MSeq (s1:=String c "") (s2:="")); constructor; exact Hc.
    + apply (RegExp.MSeq (s1:=String c "") (s2:=w)); [constructor; exact Hc|].
      inversion IH as [| |? ? s1 s2 H1 H2| | | |]; subst.
      apply (RegExp.MStarS H1 H2).
Qed.

Lemma dash_matches (s : string) : RegExp.matches dashR s <-> s = " - ".
Proof.
  unfold dashR. split.
  - intros H. inversion H as [| |? ? s1 s2 H1 H2| | | |]; subst.
    inversion H2 as [| |? ? s3 s4 H3 H4| | | |]; subst.
    apply lit_matches in H1, H3, H4. now subst.
  - intros ->. apply (RegExp.MSeq (s1:=" ") (s2:="- ")); [now apply lit_matches|].
    apply (RegExp.MSeq (s1:="-") (s2:=" ")); now apply lit_matches.
Qed.

Lemma spaced_words (t : string) :
  RegExp.matches (RegExp.Star (RegExp.Seq spaceR wordR)) t ->
  forall w, word w -> words (w ++ t).
Proof.
  remember (RegExp.Star (RegExp.Seq spaceR wordR)) as r eqn:Er.
  induction 1 as [| | | | | |r0 s1 s2 H1 _ H2 IH2]; try discriminate; intros w Hw.
  - rewrite append_nil_r. now apply words_one.
  - injection Er as ->. inversion H1 as [| |? ? s3 s4 H3 H4| | | |]; subst.
    apply lit_matches in H3. subst s3. apply word_matches in H4.
    rewrite append_assoc. apply words_more; [exact Hw|]. now apply IH2.
Qed.

Lemma words_matches (s : string) : RegExp.matches wordsR s <-> words s.
Proof.
  unfold wordsR. split.
  - intros H. inversion H as [| |? ? s1 s2 H1 H2| | | |]; subst.
    apply spaced_words; [exact H2 | now apply word_matches].
  - induction 1 as [w Hw|w ws Hw Hws IH].
    + rewrite <- (append_nil_r w). apply RegExp.MSeq; [now apply word_matches | constructor].
    + inversion IH as [| |? ? s1 s2 H1 H2| | | |]; subst.
      apply RegExp.MSeq; [now apply word_matches|].
      rewrite <- append_assoc. apply RegExp.MStarS; [|exact H2].
      apply (RegExp.MSeq (s1:=" ")); [now apply lit_matches | exact H1].
Qed.

Lemma opt_matches (r : RegExp.regex) (s : string) :
  RegExp.matches (RegExp.Opt r) s <-> s = "" \/ RegExp.matches r s.
Proof.
  unfold RegExp.Opt. split.
  - intros H. inversion H as [| | |? ? ? H1|? ? ? H1| |]; subst; [now right|].
    inversion H1. now left.
  - intros [->|H]; [apply RegExp.MAltR; constructor | now apply RegExp.MAltL].
Qed.

(** The pattern of the source matches exactly the names that follow the
    convention. *)
Lemma app_name_regex_conforms (name : string) :
  StringUtils.matches name APP_NAME_REGEX = true <-> conforms name.
Proof.
  unfold StringUtils.matches.
  change APP_NAME_REGEX
    with (RegExp.Pattern true
            (RegExp.Seq (RegExp.Opt (RegExp.Seq wordsR dashR))
               (RegExp.Seq wordsR (RegExp.Opt (RegExp.Seq dashR wordR))))
            true).
  rewrite test_anchored. unfold conforms. split.
  - intros H. inversion H as [| |? ? s1 s2 H1 H2| | | |]; subst.
    inversion H2 as [| |? ? s3 s4 H3 H4| | | |]; subst.
    exists s1, s3, s4. split; [reflexivity|].
    apply opt_matches in H1, H4. apply words_matches in H3. repeat split.
    + destruct H1 as [->|H1]; [now left|]. right.
      inversion H1 as [| |? ? s5 s6 H5 H6| | | |]; subst.
      apply words_matches in H5. apply dash_matches in H6. subst. eauto.
    + exact H3.
    + destruct H4 as [->|H4]; [now left|]. right.
      inversion H4 as [| |? ? s5 s6 H5 H6| | | |]; subst.
      apply dash_matches in H5. apply word_matches in H6. subst. eauto.
  - intros (ns & res & co & -> & Hns & Hres & Hco).
    apply RegExp.MSeq; [| apply RegExp.MSeq].
    + apply opt_matches. destruct Hns as [->|(b & Hb & ->)]; [now left|]. right.
      apply RegExp.MSeq; [now apply words_matches | now apply dash_matches].
    + now apply words_matches.
    + apply opt_matches. destruct Hco as [->|(c & Hc & ->)]; [now left|]. right.
      apply RegExp.MSeq; [now apply dash_matches | now apply word_matches].
Qed.
End NamingConvention.

(** C6. The naming-convention evaluator emits the result of testing the
    pattern of the source on the name. The pattern has both anchors, so that
    the whole name has to match, and it matches the names made of an optional
    namespace of words, the words of the resource, and an optional country.
    ["Billing - Invoicing - FR"] complies and ["invalid_name!"] does not. *)
Theorem naming_convention_matches_the_whole_name :
  (forall app0 managementApi elasticsearch,
      result (Criterion.evaluate nameNamingConvention app0 managementApi elasticsearch)
      = inr (evaluateNamingConvention APP_NAME_REGEX (Application.name app0)))
  /\ (forall name,
         evaluateNamingConvention APP_NAME_REGEX name
         = Rx.Obs [StringUtils.matches name APP_NAME_REGEX] None
         /\ (StringUtils.matches name APP_NAME_REGEX = true
             <-> RegExp.matches (RegExp.body APP_NAME_REGEX) name)
         /\ (StringUtils.matches name APP_NAME_REGEX = true <-> conforms name))
  /\ RegExp.anchoredStart APP_NAME_REGEX = true
  /\ RegExp.anchoredEnd APP_NAME_REGEX = true
  /\ evaluateNamingConvention APP_NAME_REGEX "Billing - Invoicing - FR" = Rx.Obs [true] None
  /\ evaluateNamingConvention APP_NAME_REGEX "invalid_name!" = Rx.Obs [false] None.
Proof.
  split; [reflexivity|]. split; [| repeat split].
  intros name. split; [reflexivity|]. split.
  - apply (test_anchored (RegExp.body APP_NAME_REGEX) name).
  - apply app_name_regex_conforms.
Qed.

(** * Further properties *)

(** ** Merging with a projection that changes the state *)

Section ThreadedMerge.
Variables S A B : Type.
Variable project : A -> S -> (Failure + Rx.Observable B) * S.

Local Abbreviation finished := (fun o : Rx.Observable B => Rx.ending o = None).
Local Abbreviation values :=
  (fun l : list (Rx.Observable B) => List.concat (List.map (@Rx.emitted B) l)).

Lemma projectAll_cons (a : A) (src : list A) (st st' : S) (o : Rx.Observable B) :
  project a st = (inr o, st') ->
  forall os st'',
    projectAll project (a :: src) st = (Some os, st'')
    <-> exists os', os = o :: os' /\ projectAll project src st' = (Some os', st'').
Proof.
  intros Hp os st''. simpl. rewrite Hp.
  destruct (projectAll project src st') as [[os'|] st2]; simpl; split.
  - intros [= <- <-]. eauto.
  - intros (os2 & -> & [= <- <-]). reflexivity.
  - discriminate.
  - intros (os2 & _ & H). discriminate.
Qed.

Lemma projectAll_throws (a : A) (src : list A) (st st' : S) (e : Failure) :
  project a st = (inl e, st') ->
  forall os st'', projectAll project (a :: src) st <> (Some os, st'').
Proof. intros Hp os st''. simpl. rewrite Hp. discriminate. Qed.

Lemma drainSource_completed (src : list A) (e : option Failure) :
  forall st,
    Rx.ending (fst (Rx.drainSource project src e st)) = None ->
    exists os,
      projectAll project src st = (Some os, snd (Rx.drainSource project src e st))
      /\ e = None /\ Forall finished os
      /\ Rx.emitted (fst (Rx.drainSource project src e st)) = values os.
Proof.
  induction src as [|a src IH]; intros st.
  - simpl. intros ->. exists []. repeat split; auto.
  - cbn [Rx.drainSource]. destruct (project a st) as [[err|o] st'] eqn:Ep;
      [simpl; discriminate|].
    destruct (Rx.ending o) eqn:Eo; [simpl; discriminate|]. cbn [fst snd Rx.ending Rx.emitted].
    intros H. destruct (IH st' H) as (os & H1 & H2 & H3 & H4).
    exists (o :: os). split; [|repeat split; auto].
    + apply (projectAll_cons src Ep). eauto.
    + simpl. now rewrite H4.
Qed.

Lemma drainSource_completes_when (src : list A) :
  forall st os st',
    projectAll project src st = (Some os, st') -> Forall finished os ->
    Rx.ending (fst (Rx.drainSource project src None st)) = None.
Proof.
  induction src as [|a src IH]; intros st os st' Hp Hall; [reflexivity|].
  cbn [Rx.drainSource]. destruct (project a st) as [[err|o] st1] eqn:Ep.
  - exfalso. exact (projectAll_throws src Ep Hp).
  - apply (projectAll_cons src Ep) in Hp as (os' & -> & Hp).
    inversion Hall as [|? ? Ho Hos]; subst. rewrite Ho. simpl. eapply IH; eauto.
Qed.

(** When a merge completes, the source has completed, every projection has
    returned and every inner observable has completed; the state is the one
    that the projections leave when called in the order of the source, and
    the values are those of all the inner observables. *)
Lemma merging_completed (sched : list nat) :
  forall (src : option (Rx.Observable A)) (inners : list (Rx.Observable B)) (st : S),
    Rx.ending (fst (Rx.merging project sched src inners st)) = None ->
    exists os,
      projectAll project (Rx.sourceItems src) st
      = (Some os, snd (Rx.merging project sched src inners st))
      /\ Rx.sourceCompletes src
      /\ Forall finished inners /\ Forall finished os
      /\ Permutation (Rx.emitted (fst (Rx.merging project sched src inners st)))
           (values (inners ++ os)%list).
Proof.
  assert (Hinner : forall sched,
             (forall src inners st,
                 Rx.ending (fst (Rx.merging project sched src inners st)) = None ->
                 exists os,
                   projectAll project (Rx.sourceItems src) st
                   = (Some os, snd (Rx.merging project sched src inners st))
                   /\ Rx.sourceCompletes src
                   /\ Forall finished inners /\ Forall finished os
                   /\ Permutation (Rx.emitted (fst (Rx.merging project sched src inners st)))
                        (values (inners ++ os)%list)) ->
             forall src inners st j o,
               nth_error inners j = Some o ->
               let r := match Rx.emitted o, Rx.ending o with
                        | x :: xs, e =>
                            Rx.prepend x
                              (Rx.merging project sched src
                                 (Rx.replaceAt j (Rx.Obs xs e) inners) st)
                        | [], Some e => (Rx.Obs [] (Some e), st)
                        | [], None => Rx.merging project sched src (Rx.removeAt j inners) st
                        end in
               Rx.ending (fst r) = None ->
               exists os,
                 projectAll project (Rx.sourceItems src) st = (Some os, snd r)
                 /\ Rx.sourceCompletes src
                 /\ Forall finished inners /\ Forall finished os
                 /\ Permutation (Rx.emitted (fst r)) (values (inners ++ os)%list)).
  { intros sched0 IH src inners st j o Eo r. subst r.
    destruct (Rx.emitted o) as [|x xs] eqn:Ex.
    - destruct (Rx.ending o) as [e|] eqn:Ee; [simpl; discriminate|].
      destruct (inner_completes j inners Eo Ex Ee) as [C1 C2].
      intros H. destruct (IH _ _ _ H) as (os & H1 & H2 & H3 & H4 & H5).
      exists os. repeat split; auto; [now apply C1|].
      rewrite List.map_app, List.concat_app in H5 |- *. now rewrite <- C2.
    - destruct (inner_emits j inners Eo Ex) as [C1 C2].
      unfold Rx.prepend; simpl. intros H.
      destruct (IH _ _ _ H) as (os & H1 & H2 & H3 & H4 & H5).
      exists os. repeat split; auto; [now apply C1|].
      rewrite List.map_app, List.concat_app in H5 |- *.
      eapply perm_trans; [apply perm_skip, H5|].
      rewrite app_comm_cons. apply Permutation_app_tail, C2. }
  induction sched as [|n sched IH]; intros src inners st.
  - simpl. unfold Rx.drain.
    destruct (drainInners_spec inners) as [D1 D2].
    destruct (Rx.ending (Rx.drainInners inners)) eqn:E; [simpl; congruence|].
    destruct src as [s|]; simpl.
    + intros H. destruct (drainSource_completed _ _ _ H) as (os & H1 & H2 & H3 & H4).
      exists os. repeat split; auto; [now apply D1|].
      rewrite List.map_app, List.concat_app, D2, H4 by reflexivity. apply Permutation_refl.
    + intros _. exists []. repeat split; auto; [now apply D1|].
      rewrite app_nil_r, D2 by reflexivity. apply Permutation_refl.
  - destruct src as [s|]; cbn [Rx.merging].
    + destruct (Nat.modulo n (1 + List.length inners)) as [|j] eqn:Ei.
      * destruct s as [[|a src'] e]; cbn [Rx.emitted Rx.ending].
        -- destruct e as [e|]; [simpl; discriminate|].
           intros H. destruct (IH None inners st H) as (os & H1 & H2 & H3 & H4 & H5).
           exists os. repeat split; auto.
        -- destruct (project a st) as [[err|o] st'] eqn:Ep; [simpl; discriminate|].
           intros H.
           destruct (IH (Some (Rx.Obs src' e)) (inners ++ [o])%list st' H)
             as (os & H1 & H2 & H3 & H4 & H5).
           apply Forall_app in H3 as [H3 Ho]. inversion Ho; subst.
           exists (o :: os). split; [|repeat split; auto].
           ++ apply (projectAll_cons src' Ep). eauto.
           ++ now rewrite <- app_assoc in H5.
      * destruct (nth_error inners j) as [o|] eqn:Eo;
          [| exfalso; revert Eo; eapply choice_in_range; [reflexivity | exact Ei]].
        apply (Hinner sched IH (Some s) inners st j o Eo).
    + simpl Nat.add.
      destruct (nth_error inners (Nat.modulo n (List.length inners))) as [o|] eqn:Eo.
      * apply (Hinner sched IH None inners st _ o Eo).
      * destruct inners as [|o inners];
          [| exfalso; revert Eo; apply choice_in_range0; discriminate].
        intros _. exists []. simpl. repeat split; auto.
Qed.

(** Conversely, a merge completes when the source completes, every
    projection returns and every inner observable completes. *)
Lemma merging_completes_when (sched : list nat) :
  forall (src : option (Rx.Observable A)) (inners : list (Rx.Observable B)) (st : S) os st',
    projectAll project (Rx.sourceItems src) st = (Some os, st') ->
    Rx.sourceCompletes src -> Forall finished inners -> Forall finished os ->
    Rx.ending (fst (Rx.merging project sched src inners st)) = None.
Proof.
  induction sched as [|n sched IH]; intros src inners st os st' Hp Hs Hin Hos.
  - simpl. unfold Rx.drain.
    destruct (drainInners_spec inners) as [D1 _]. rewrite (proj2 D1 Hin).
    destruct src as [s|]; simpl; [|now apply D1].
    cbn [Rx.sourceItems Rx.sourceCompletes] in Hs, Hp. rewrite Hs.
    eapply drainSource_completes_when; eauto.
  - assert (Hinner : forall j o,
               nth_error inners j = Some o ->
               Rx.ending (fst (match Rx.emitted o, Rx.ending o with
                               | x :: xs, e =>
                                   Rx.prepend x
                                     (Rx.merging project sched src
                                        (Rx.replaceAt j (Rx.Obs xs e) inners) st)
                               | [], Some e => (Rx.Obs [] (Some e), st)
                               | [], None =>
                                   Rx.merging project sched src (Rx.removeAt j inners) st
                               end)) = None).
    { intros j o Eo. destruct (Rx.emitted o) as [|x xs] eqn:Ex.
      - destruct (Rx.ending o) as [e|] eqn:Ee.
        + exfalso. eapply inner_fails; eauto.
        + eapply IH; eauto. now apply (inner_completes j inners Eo Ex Ee).
      - unfold Rx.prepend; simpl. eapply IH; eauto.
        now apply (inner_emits j inners Eo Ex). }
    destruct src as [s|]; cbn [Rx.merging].
    + destruct (Nat.modulo n (1 + List.length inners)) as [|j] eqn:Ei.
      * destruct s as [[|a src'] e];
          cbn [Rx.sourceItems Rx.sourceCompletes Rx.emitted Rx.ending] in Hs, Hp; subst e;
          cbn [Rx.emitted Rx.ending].
        -- eapply IH; eauto. exact I.
        -- destruct (project a st) as [[err|o] st1] eqn:Ep.
           ++ exfalso. exact (projectAll_throws src' Ep Hp).
           ++ apply (projectAll_cons src' Ep) in Hp as (os' & -> & Hp).
              inversion Hos; subst.
              eapply IH; eauto; [reflexivity|].
              apply Forall_app. split; [exact Hin | constructor; auto].
      * destruct (nth_error inners j) as [o|] eqn:Eo;
          [| exfalso; revert Eo; eapply choice_in_range; [reflexivity | exact Ei]].
        now apply Hinner.
    + simpl Nat.add.
      destruct (nth_error inners (Nat.modulo n (List.length inners))) as [o|] eqn:Eo;
        [now apply Hinner | reflexivity].
Qed.
End ThreadedMerge.

(** ** The run, Application by Application *)

Section RunFacts.
Variable s : Schedules.
Variable managementApi : ManagementApi.t.
Variable elasticsearch : option ElasticSearch.t.
Variable this : Command.

(** The observable that the pipeline gets for an Application: its report, or
    a failure. *)
Let outcome (a : Application.t) (o : Rx.Observable AppQuality) : Prop :=
  (Forall (Rx.completes (evaluateOne a managementApi elasticsearch)) (enabledCriteriaOf this)
   /\ exists q,
       Permutation q (flat_map (Rx.outputs (evaluateOne a managementApi elasticsearch))
                        (enabledCriteriaOf this))
       /\ o = Rx.Obs [{| app := a;
                         quality := Js.sort (byReference QualityCriterion.reference) q |}]
                None)
  \/ (~ Forall (Rx.completes (evaluateOne a managementApi elasticsearch))
        (enabledCriteriaOf this)
      /\ exists e, o = Rx.Obs [] (Some e)).

Lemma projectAll_applications (apps : list Application.t) :
  forall st,
    argv st = argv this -> catalog st = catalog this -> coherent st ->
    exists os st',
      projectAll (evaluateApplication s managementApi elasticsearch) apps st = (Some os, st')
      /\ Forall2 outcome apps os
      /\ argv st' = argv this /\ catalog st' = catalog this /\ coherent st'
      /\ console st'
         = (console st ++ List.map (fun a => Info (qualityMetricsMessage a)) apps)%list.
Proof.
  induction apps as [|a apps IH]; intros st Ha Hcat Hc.
  - exists [], st. simpl. rewrite app_nil_r. repeat split; auto; try constructor.
  - pose proof (display_coherent (Info (qualityMetricsMessage a)) st Hc) as Hd.
    pose proof (evaluateCriteria_spec (fst (ofEvaluation s a)) (snd (ofEvaluation s a)) a
                  managementApi elasticsearch (displayInfo (qualityMetricsMessage a) st) Hd)
      as ((E1 & E2 & E3) & E4 & E5).
    assert (Hen : enabledCriteriaOf (displayInfo (qualityMetricsMessage a) st)
                  = enabledCriteriaOf this).
    { apply enabledCriteriaOf_ext; [exact Ha|]. rewrite <- Hcat.
      apply catalog_ext; reflexivity. }
    rewrite Hen in E5.
    assert (Hp : evaluateApplication s managementApi elasticsearch a st
                 = (inr (fst (evaluateCriteria (fst (ofEvaluation s a)) (snd (ofEvaluation s a))
                                a managementApi elasticsearch
                                (displayInfo (qualityMetricsMessage a) st))),
                    snd (evaluateCriteria (fst (ofEvaluation s a)) (snd (ofEvaluation s a))
                           a managementApi elasticsearch
                           (displayInfo (qualityMetricsMessage a) st)))).
    { unfold evaluateApplication. now destruct (evaluateCriteria _ _ a _ _ _). }
    set (o := fst (evaluateCriteria _ _ a _ _ _)) in *.
    set (st1 := snd (evaluateCriteria _ _ a _ _ _)) in *.
    destruct (IH st1) as (os & st' & I1 & I2 & I3 & I4 & I5 & I6).
    + rewrite E1. exact Ha.
    + rewrite E2, <- Hcat. apply catalog_ext; reflexivity.
    + exact E4.
    + exists (o :: os), st'. split; [| split; [| repeat split; auto]].
      * eapply projectAll_cons; [exact Hp | eauto].
      * constructor; [exact E5 | exact I2].
      * rewrite I6, E3. simpl. now rewrite <- app_assoc.
Qed.

Lemma outcomes_reports (apps : list Application.t) (os : list (Rx.Observable AppQuality)) :
  Forall2 outcome apps os ->
  (forall a, In a apps ->
             Forall (Rx.completes (evaluateOne a managementApi elasticsearch))
               (enabledCriteriaOf this)) ->
  Forall (fun o => Rx.ending o = None) os
  /\ List.map app (List.concat (List.map (@Rx.emitted AppQuality) os)) = apps.
Proof.
  induction 1 as [|a o apps os Ho _ IH]; intros Hall; [split; [constructor | reflexivity]|].
  destruct IH as [I1 I2]; [intros a' Ha'; apply Hall; now right|].
  destruct Ho as [(_ & q & _ & ->) | (Hn & _)].
  - split; [constructor; [reflexivity | exact I1]|]. simpl. now rewrite I2.
  - exfalso. apply Hn, Hall. now left.
Qed.

Lemma outcomes_failure (apps : list Application.t) (os : list (Rx.Observable AppQuality))
      (a : Application.t) :
  Forall2 outcome apps os -> In a apps ->
  ~ Forall (Rx.completes (evaluateOne a managementApi elasticsearch)) (enabledCriteriaOf this) ->
  ~ Forall (fun o => Rx.ending o = None) os.
Proof.
  induction 1 as [|a' o apps os Ho _ IH]; intros Hin Hn Hall; [contradiction|].
  inversion Hall as [|? ? Hfin Hrest]; subst. destruct Hin as [->|Hin].
  - destruct Ho as [(Hc & _) | (_ & e & ->)]; [now apply Hn | discriminate].
  - now apply IH.
Qed.

(** The merge of the evaluations completes when every evaluator of every
    discovered Application does: one report per Application, and one
    announcement per Application in the order of discovery. *)
Lemma evaluations_complete (apps : list Application.t) (st : Command) :
  argv st = argv this -> catalog st = catalog this -> coherent st ->
  (forall a, In a apps ->
             Forall (Rx.completes (evaluateOne a managementApi elasticsearch))
               (enabledCriteriaOf this)) ->
  let r := Rx.mergeMap (evaluateApplication s managementApi elasticsearch)
             (ofApplications s) (Rx.Obs apps None) st in
  Rx.ending (fst r) = None
  /\ Permutation (List.map app (Rx.emitted (fst r))) apps
  /\ argv (snd r) = argv this /\ catalog (snd r) = catalog this /\ coherent (snd r)
  /\ console (snd r)
     = (console st ++ List.map (fun a => Info (qualityMetricsMessage a)) apps)%list.
Proof.
  intros Ha Hcat Hc Hall. cbv zeta. unfold Rx.mergeMap.
  destruct (projectAll_applications apps st Ha Hcat Hc)
    as (os & st' & P1 & P2 & P3 & P4 & P5 & P6).
  destruct (outcomes_reports P2 Hall) as [O1 O2].
  assert (Hend : Rx.ending (fst (Rx.merging (evaluateApplication s managementApi elasticsearch)
                                   (ofApplications s) (Some (Rx.Obs apps None)) [] st))
                 = None).
  { eapply merging_completes_when with (os := os); simpl; eauto. }
  split; [exact Hend|].
  destruct (merging_completed _ _ _ _ _ Hend) as (os' & Q1 & _ & _ & _ & Q5).
  simpl in Q1, Q5. rewrite P1 in Q1. injection Q1 as Hos Hst. subst os'.
  rewrite <- Hst. repeat split; auto.
  eapply perm_trans; [apply Permutation_map, Q5|]. rewrite O2. apply Permutation_refl.
Qed.

(** It does not complete when an evaluator of a discovered Application
    throws or fails. *)
Lemma evaluations_fail (discovery : Rx.Observable Application.t) (st : Command)
      (a : Application.t) :
  argv st = argv this -> catalog st = catalog this -> coherent st ->
  In a (Rx.emitted discovery) ->
  ~ Forall (Rx.completes (evaluateOne a managementApi elasticsearch)) (enabledCriteriaOf this) ->
  Rx.ending (fst (Rx.mergeMap (evaluateApplication s managementApi elasticsearch)
                    (ofApplications s) discovery st)) <> None.
Proof.
  intros Ha Hcat Hc Hin Hn Hend. unfold Rx.mergeMap in Hend.
  destruct (merging_completed _ _ _ _ _ Hend) as (os' & Q1 & _ & _ & Q4 & _).
  simpl in Q1.
  destruct (projectAll_applications (Rx.emitted discovery) st Ha Hcat Hc)
    as (os & st' & P1 & P2 & _).
  rewrite P1 in Q1. injection Q1 as <- _.
  exact (outcomes_failure P2 Hin Hn Q4).
Qed.
End RunFacts.

Lemma pipeline_after_login (s : Schedules)
      (createInstance : string -> list string -> ElasticSearch.t)
      (managementApi : ManagementApi.t) (this : Command) (token : string) :
  ManagementApi.login managementApi (username (argv this)) (password (argv this))
  = Rx.of_ token ->
  pipeline s createInstance managementApi this
  = Rx.mergeMap (evaluateApplication s managementApi (connect createInstance (argv this)))
      (ofApplications s) (getApplications managementApi (argv this)) this.
Proof.
  intros Hl. unfold pipeline. rewrite Hl, mergeMap_of. reflexivity.
Qed.

(** ** Sorting records whose keys are all different *)

Section SortOn.
Variable A : Type.
Variable cmp : A -> A -> Z.
Hypothesis cmp_total : forall x y, 0 < cmp x y -> cmp y x <= 0.
Hypothesis cmp_trans : forall x y z, cmp x y <= 0 -> cmp y z <= 0 -> cmp x z <= 0.

Lemma sorted_perm_eq_on (l1 l2 : list A) :
  (forall x y, In x l1 -> In y l1 -> cmp x y <= 0 -> cmp y x <= 0 -> x = y) ->
  StronglySorted (fun x y => cmp x y <= 0) l1 ->
  StronglySorted (fun x y => cmp x y <= 0) l2 ->
  Permutation l1 l2 -> l1 = l2.
Proof.
  intros Hanti H1. revert l2 Hanti.
  induction H1 as [|x l1 Hs1 IH Hx]; intros l2 Hanti H2 Hp.
  - apply Permutation_nil in Hp. now subst.
  - destruct H2 as [|y l2 Hs2 Hy].
    + apply Permutation_sym, Permutation_nil in Hp. discriminate.
    + assert (In y (x :: l1)) as Hin2
          by (apply (Permutation_in _ (Permutation_sym Hp)); left; reflexivity).
      assert (x = y) as ->.
      { assert (In x (y :: l2)) as Hin1
            by (apply (Permutation_in _ Hp); left; reflexivity).
        destruct Hin1 as [->|Hin1]; [reflexivity|].
        destruct Hin2 as [->|Hin2']; [reflexivity|].
        rewrite Forall_forall in Hx, Hy.
        apply Hanti; [now left | now right | apply Hx, Hin2' | apply Hy, Hin1]. }
      f_equal. apply IH; [| exact Hs2 | apply Permutation_cons_inv with y, Hp].
      intros a b Ha Hb. apply Hanti; now right.
Qed.

Lemma sort_perm_eq_on (l1 l2 : list A) :
  (forall x y, In x l1 -> In y l1 -> cmp x y <= 0 -> cmp y x <= 0 -> x = y) ->
  Permutation l1 l2 -> Js.sort cmp l1 = Js.sort cmp l2.
Proof.
  intros Hanti Hp. apply sorted_perm_eq_on.
  - intros x y Hx Hy. apply Hanti; now apply (sort_In cmp).
  - now apply sort_sorted.
  - now apply sort_sorted.
  - apply perm_trans with l1; [apply sort_perm|].
    apply perm_trans with l2; [exact Hp | apply Permutation_sym, sort_perm].
Qed.
End SortOn.

Lemma NoDup_map_injective (A K : Type) (key : A -> K) (l : list A) (x y : A) :
  NoDup (List.map key l) -> In x l -> In y l -> key x = key y -> x = y.
Proof.
  induction l as [|a l IH]; simpl; [contradiction|].
  intros Hnd Hx Hy Hk. inversion Hnd as [|? ? Hn Hnd']; subst.
  destruct Hx as [->|Hx], Hy as [->|Hy]; auto.
  - exfalso. apply Hn. rewrite Hk. now apply in_map.
  - exfalso. apply Hn. rewrite <- Hk. now apply in_map.
Qed.

Lemma sort_by_reference_perm (A : Type) (reference : A -> string) (l1 l2 : list A) :
  NoDup (List.map reference l1) -> Permutation l1 l2 ->
  Js.sort (byReference reference) l1 = Js.sort (byReference reference) l2.
Proof.
  intros Hnd. apply sort_perm_eq_on.
  - intros x y. apply compare_total.
  - intros x y z. apply compare_trans.
  - intros x y Hx Hy H1 H2. apply (NoDup_map_injective reference l1); auto.
    now apply compare_antisym.
Qed.

(** ** More about the registry and about one Application *)

(** X1. Both getters are memoized: a second call returns what the first
    returned and changes nothing; the first call changes neither the
    arguments nor what is displayed; and displaying lines between two calls
    does not change the enabled criteria. *)
Theorem getters_compute_once (this : Command) :
  getCriteria (snd (getCriteria this)) = getCriteria this
  /\ getEnabledCriteria (snd (getEnabledCriteria this)) = getEnabledCriteria this
  /\ argv (snd (getEnabledCriteria this)) = argv this
  /\ console (snd (getEnabledCriteria this)) = console this
  /\ forall d,
      fst (getEnabledCriteria (display d (snd (getEnabledCriteria this))))
      = fst (getEnabledCriteria this).
Proof.
  assert (H1 : getCriteria (snd (getCriteria this)) = getCriteria this).
  { unfold getCriteria. destruct (_criteria this) eqn:E; simpl; now rewrite ?E. }
  assert (H2 : getEnabledCriteria (snd (getEnabledCriteria this)) = getEnabledCriteria this).
  { unfold getEnabledCriteria at 2 3.
    destruct (_enabledCriteria this) eqn:E.
    - simpl. unfold getEnabledCriteria. now rewrite E.
    - destruct (getCriteria this) as [criteria this1]. reflexivity. }
  split; [exact H1|]. split; [exact H2|]. split; [| split].
  - unfold getEnabledCriteria, getCriteria.
    destruct (_enabledCriteria this); [reflexivity|]. now destruct (_criteria this).
  - apply getEnabledCriteria_console.
  - intros d. rewrite getEnabledCriteria_display. simpl. now rewrite H2.
Qed.

(** X2. The enabled criteria are the entries of the catalog that pass the
    filter, each as many times as it is in the catalog: sorting drops and
    repeats nothing. *)
Theorem enabled_criteria_are_the_filtered_catalog (this : Command) :
  coherent this ->
  Permutation (fst (getEnabledCriteria this))
    (filter (isEnabled (runtimeEvaluationEnabled this)) (List.map snd (catalog this)))
  /\ (List.length (fst (getEnabledCriteria this)) <= List.length (catalog this))%nat.
Proof.
  intros Hc. destruct (getEnabledCriteria_spec this Hc) as (-> & _).
  unfold enabledCriteriaOf. split; [apply sort_perm|].
  rewrite sort_length. rewrite <- (List.length_map snd (catalog this)).
  apply filter_length_le.
Qed.

Lemma enabled_criteria_are_the_filtered_catalog_witness :
  coherent (newCommand Scenario.runtimeArgv)
  /\ Permutation (fst (getEnabledCriteria (newCommand Scenario.runtimeArgv)))
       (filter (isEnabled true) (List.map snd (catalog (newCommand Scenario.runtimeArgv)))).
Proof.
  split; [exact I|].
  exact (proj1 (enabled_criteria_are_the_filtered_catalog (newCommand Scenario.runtimeArgv) I)).
Defined.

(** X3. [evaluateCriteria] emits one report, about its Application and made
    of the values of all the evaluators, when every evaluator of an enabled
    criterion returns an observable that completes; otherwise it emits
    nothing and fails. Either way it displays nothing and leaves the
    arguments and the catalog of the command as they are. *)
Theorem evaluateCriteria_emits_one_report_or_fails
        (outer inner : list nat) (app0 : Application.t) (managementApi : ManagementApi.t)
        (elasticsearch : option ElasticSearch.t) (this : Command) :
  coherent this ->
  let r := evaluateCriteria outer inner app0 managementApi elasticsearch this in
  let f := evaluateOne app0 managementApi elasticsearch in
  (Forall (Rx.completes f) (enabledCriteriaOf this) ->
   exists report,
     fst r = Rx.Obs [report] None /\ app report = app0
     /\ Permutation (quality report) (flat_map (Rx.outputs f) (enabledCriteriaOf this)))
  /\ (~ Forall (Rx.completes f) (enabledCriteriaOf this) ->
      exists e, fst r = Rx.Obs [] (Some e))
  /\ argv (snd r) = argv this /\ catalog (snd r) = catalog this
  /\ console (snd r) = console this.
Proof.
  intros Hc r f.
  destruct (evaluateCriteria_spec outer inner app0 managementApi elasticsearch this Hc)
    as ((S1 & S2 & S3) & _ & Hcases).
  fold r in S1, S2, S3, Hcases. fold f in Hcases.
  split; [| split; [| auto]].
  - intros Hall. destruct Hcases as [(_ & q & Hq & Hr) | (Hn & _)]; [|contradiction].
    eexists. split; [exact Hr|]. split; [reflexivity|]. simpl.
    eapply perm_trans; [apply sort_perm | exact Hq].
  - intros Hn. destruct Hcases as [(Hall & _) | (_ & He)]; [contradiction | exact He].
Qed.

Lemma evaluateCriteria_emits_one_report_or_fails_witness :
  coherent (newCommand (defaultArgv "requests"))
  /\ exists report,
      fst (evaluateCriteria [] [1; 0]%nat Scenario.billing Scenario.managementApi None
             (newCommand (defaultArgv "requests")))
      = Rx.Obs [report] None
      /\ app report = Scenario.billing.
Proof.
  split; [exact I|].
  destruct (proj1 (evaluateCriteria_emits_one_report_or_fails [] [1; 0]%nat Scenario.billing
                     Scenario.managementApi None (newCommand (defaultArgv "requests")) I))
    as (report & H1 & H2 & _).
  - repeat constructor.
  - exists report. split; assumption.
Defined.

(** X4. When the results of an Application have pairwise different
    references and every evaluator completes, the report is the same for
    every schedule: the values of the evaluators, sorted by reference. *)
Theorem report_does_not_depend_on_the_schedule
        (outer inner : list nat) (app0 : Application.t) (managementApi : ManagementApi.t)
        (elasticsearch : option ElasticSearch.t) (this : Command) :
  coherent this ->
  NoDup (List.map QualityCriterion.reference
           (flat_map (Rx.outputs (evaluateOne app0 managementApi elasticsearch))
              (enabledCriteriaOf this))) ->
  Forall (Rx.completes (evaluateOne app0 managementApi elasticsearch)) (enabledCriteriaOf this) ->
  fst (evaluateCriteria outer inner app0 managementApi elasticsearch this)
  = Rx.Obs [reportOf app0 managementApi elasticsearch this] None.
Proof.
  intros Hc Hnd Hall.
  destruct (evaluateCriteria_spec outer inner app0 managementApi elasticsearch this Hc)
    as (_ & _ & [(_ & q & Hq & Hr) | (Hn & _)]); [|contradiction].
  rewrite Hr. unfold reportOf. do 3 f_equal.
  symmetry. apply sort_by_reference_perm; [exact Hnd | apply Permutation_sym, Hq].
Qed.

Lemma report_does_not_depend_on_the_schedule_witness :
  fst (evaluateCriteria [1; 1; 0]%nat [0; 0; 0; 3; 2; 1]%nat Scenario.billing
         Scenario.managementApi (Some (Scenario.search [3]))
         (newCommand Scenario.runtimeArgv))
  = Rx.Obs [reportOf Scenario.billing Scenario.managementApi (Some (Scenario.search [3]))
              (newCommand Scenario.runtimeArgv)] None.
Proof.
  apply (@report_does_not_depend_on_the_schedule [1; 1; 0]%nat [0; 0; 0; 3; 2; 1]%nat
           Scenario.billing Scenario.managementApi (Some (Scenario.search [3]))
           (newCommand Scenario.runtimeArgv) I).
  - simpl. repeat constructor; simpl; intuition discriminate.
  - repeat constructor.
Defined.

(** X5. With runtime evaluation and no search URL (absent or empty), the
    command has no search collaborator: for an Application that has a
    description, the evaluator of APP-R00 throws when it calls it, and
    [evaluateCriteria] fails with that [TypeError] and emits no report,
    whatever the schedules. *)
Theorem runtime_evaluation_without_search_url_fails
        (createInstance : string -> list string -> ElasticSearch.t) (a : Argv)
        (app0 : Application.t) (managementApi : ManagementApi.t) (d : string)
        (outer inner : list nat) :
  evaluate_runtime a = true ->
  elasticsearch_url a = None \/ elasticsearch_url a = Some "" ->
  Application.description app0 = Some d ->
  fst (evaluateCriteria outer inner app0 managementApi (connect createInstance a)
         (newCommand a))
  = Rx.Obs [] (Some (TypeError "Cannot read property 'searchHits' of undefined")).
Proof.
  intros Hrt Hurl Hd.
  assert (Hes : connect createInstance a = None).
  { unfold connect. destruct Hurl as [-> | ->]; reflexivity. }
  rewrite Hes. unfold evaluateCriteria. rewrite mergeMap_of.
  destruct (getEnabledCriteria_spec (newCommand a) I) as (E1 & _).
  destruct (getEnabledCriteria (newCommand a)) as [enabledCriteria this1].
  simpl in E1. subst enabledCriteria. unfold Rx.mergeMap.
  set (f := evaluateOne app0 managementApi None).
  assert (Hend : Rx.ending (fst (Rx.merging (fun criteria (this0 : Command) => (f criteria, this0))
                                   inner (Some (Rx.from (enabledCriteriaOf (newCommand a))))
                                   [] this1))
                 = Some (TypeError "Cannot read property 'searchHits' of undefined")).
  { rewrite default_enabledCriteriaOf, Hrt. unfold Rx.from.
    assert (Hpre : Forall (Rx.completes f) [nameNamingConvention; descriptionMinLength]).
    { constructor; [reflexivity|]. constructor; [|constructor].
      unfold Rx.completes, f, evaluateOne; simpl. now rewrite Hd. }
    apply (@merging_first_throw Command _ _ f inner
             [nameNamingConvention; descriptionMinLength] [] (appUsage a) _ None []
             this1 Hpre eq_refl (Forall_nil _)). }
  destruct (Rx.merging _ inner _ [] this1) as [results this2]. simpl in Hend |- *.
  unfold Rx.reduce. rewrite Hend. reflexivity.
Qed.

Lemma runtime_evaluation_without_search_url_fails_witness :
  fst (evaluateCriteria [] [0; 1; 0; 2]%nat Scenario.billing Scenario.managementApi
         (connect (fun _ _ => Scenario.search [3]) Fleet.runtimeWithoutUrl)
         (newCommand Fleet.runtimeWithoutUrl))
  = Rx.Obs [] (Some (TypeError "Cannot read property 'searchHits' of undefined")).
Proof.
  exact (runtime_evaluation_without_search_url_fails (fun _ _ => Scenario.search [3])
           Fleet.runtimeWithoutUrl Scenario.billing Scenario.managementApi
           [] [0; 1; 0; 2]%nat eq_refl (or_introl eq_refl) eq_refl).
Defined.

(** X6. The runtime-usage evaluator follows the first hit of the search and
    nothing else: with a first hit it emits the verdict for it and
    completes, even if the search fails afterwards; without one it emits
    nothing and ends as the search does, so that a search that fails before
    any hit fails the evaluation. *)
Theorem usage_evaluation_follows_the_first_hit
        (a : Argv) (app0 : Application.t) (managementApi : ManagementApi.t)
        (es : ElasticSearch.t) :
  let hits :=
    ElasticSearch.searchHits es
      {| ElasticSearch.index := elasticsearch_index a;
         ElasticSearch.from := evaluate_runtime_from a;
         ElasticSearch.to := evaluate_runtime_to a;
         ElasticSearch.terms := [("application", Application.id app0)];
         ElasticSearch.pageSize := 1 |} in
  (forall hit rest,
      Rx.emitted hits = hit :: rest ->
      result (evaluateUsage a app0 managementApi (Some es))
      = inr (Rx.Obs [ElasticSearch.total (ElasticSearch.meta hit) >? 0] None))
  /\ (Rx.emitted hits = [] ->
      result (evaluateUsage a app0 managementApi (Some es))
      = inr (Rx.Obs [] (Rx.ending hits))).
Proof.
  intros hits. rewrite evaluateUsage_spec. fold hits. simpl. unfold Rx.map, Rx.take.
  split.
  - intros hit rest H. rewrite H. reflexivity.
  - intros H. rewrite H. simpl. rewrite H. reflexivity.
Qed.

Lemma usage_evaluation_follows_the_first_hit_witness :
  result (evaluateUsage Scenario.runtimeArgv Scenario.billing Scenario.managementApi
            (Some Fleet.flaky))
  = inr (Rx.Obs [true] None).
Proof.
  exact (proj1 (usage_evaluation_follows_the_first_hit Scenario.runtimeArgv Scenario.billing
                  Scenario.managementApi Fleet.flaky) _ [] eq_refl).
Defined.

(** ** More about the run *)

(** X7. When the login fails without a token, the command displays that
    failure and nothing else: no Application is looked up or announced, and
    there is no table. *)
Theorem failed_login_displays_the_failure_only
        (s : Schedules) (createInstance : string -> list string -> ElasticSearch.t)
        (managementApi : ManagementApi.t) (this : Command) (e : Failure) :
  ManagementApi.login managementApi (username (argv this)) (password (argv this))
  = Rx.Obs [] (Some e) ->
  console (definition s createInstance managementApi this) = (console this ++ [Error e])%list.
Proof.
  intros Hl. rewrite definition_console. unfold pipeline.
  rewrite Hl, mergeMap_failed_source, mergeMap_failed_source.
  now rewrite subscribe_console.
Qed.

Lemma failed_login_displays_the_failure_only_witness :
  console (definition Scenario.schedules (fun _ _ => Scenario.search [3]) Fleet.rejecting
             (newCommand (defaultArgv "requests")))
  = [Error AuthFailure].
Proof.
  exact (failed_login_displays_the_failure_only Scenario.schedules
           (fun _ _ => Scenario.search [3]) Fleet.rejecting
           (newCommand (defaultArgv "requests")) eq_refl).
Defined.

(** X8. When the login gives a token, the discovery completes and every
    evaluator of every discovered Application completes, the run completes:
    the command announces each Application in the order of discovery, then
    displays the table, with one data line for each discovered Application,
    in the order in which the reports arrived. *)
Theorem complete_run_displays_one_line_per_application
        (s : Schedules) (createInstance : string -> list string -> ElasticSearch.t)
        (managementApi : ManagementApi.t) (this : Command) (token : string)
        (apps : list Application.t) :
  coherent this ->
  ManagementApi.login managementApi (username (argv this)) (password (argv this))
  = Rx.of_ token ->
  getApplications managementApi (argv this) = Rx.Obs apps None ->
  (forall a, In a apps ->
             Forall (Rx.completes (evaluateOne a managementApi
                                     (connect createInstance (argv this))))
               (enabledCriteriaOf this)) ->
  let reports := Rx.emitted (fst (pipeline s createInstance managementApi this)) in
  Rx.ending (fst (pipeline s createInstance managementApi this)) = None
  /\ Permutation (List.map app reports) apps
  /\ console (definition s createInstance managementApi this)
     = (console this
        ++ List.map (fun a => Info (qualityMetricsMessage a)) apps
        ++ Info "Applications quality, in CSV format:"
        :: Raw (headerLine (enabledCriteriaOf this))
        :: List.map (fun appQuality => Raw (dataLine appQuality)) reports)%list.
Proof.
  intros Hc Hl Hd Hall reports. subst reports.
  rewrite definition_console, (@pipeline_after_login s createInstance managementApi this token Hl), Hd.
  destruct (@evaluations_complete s managementApi (connect createInstance (argv this)) this
              apps this eq_refl eq_refl Hc Hall) as (R1 & R2 & R3 & R4 & R5 & R6).
  split; [exact R1|]. split; [exact R2|].
  rewrite subscribe_console, R1, R6.
  destruct (getEnabledCriteria_spec _ R5) as (-> & _).
  rewrite (enabledCriteriaOf_ext this _ R3 R4). now rewrite <- app_assoc.
Qed.

Lemma complete_run_displays_one_line_per_application_witness :
  table (console (definition Fleet.secondFirst (fun _ _ => Scenario.search [3])
                    Fleet.healthy (newCommand Scenario.runtimeArgv)))
  = ["Application id,Application name,APP-DF01,APP-DF02,APP-R00";
     "a1,Payments,true,true,true";
     "7f3a,Billing - Invoicing - FR,true,true,true"].
Proof.
  assert (Hall : forall a, In a [Scenario.billing; Fleet.documented] ->
                           Forall (Rx.completes
                                     (evaluateOne a Fleet.healthy
                                        (connect (fun _ _ => Scenario.search [3])
                                           (argv (newCommand Scenario.runtimeArgv)))))
                             (enabledCriteriaOf (newCommand Scenario.runtimeArgv))).
  { intros a [<-|[<-|[]]]; repeat constructor. }
  destruct (@complete_run_displays_one_line_per_application Fleet.secondFirst
              (fun _ _ => Scenario.search [3]) Fleet.healthy
              (newCommand Scenario.runtimeArgv) "token"
              [Scenario.billing; Fleet.documented] I eq_refl eq_refl Hall)
    as (_ & _ & H).
  rewrite H. reflexivity.
Defined.

(** X9. One discovered Application for which an evaluator throws or fails
    is enough for the whole run to fail: the command displays a failure and
    not a single line of the table, not even for the Applications that were
    evaluated. *)
Theorem one_failing_application_leaves_no_table
        (s : Schedules) (createInstance : string -> list string -> ElasticSearch.t)
        (managementApi : ManagementApi.t) (this : Command) (token : string)
        (a : Application.t) :
  coherent this ->
  ManagementApi.login managementApi (username (argv this)) (password (argv this))
  = Rx.of_ token ->
  In a (Rx.emitted (getApplications managementApi (argv this))) ->
  ~ Forall (Rx.completes (evaluateOne a managementApi (connect createInstance (argv this))))
      (enabledCriteriaOf this) ->
  table (console (definition s createInstance managementApi this)) = table (console this)
  /\ exists displayed e,
      console (definition s createInstance managementApi this) = (displayed ++ [Error e])%list.
Proof.
  intros Hc Hl Hin Hn.
  pose proof (pipeline_invariant s createInstance managementApi Hc (fun _ => True)
                (fun _ _ _ _ _ _ _ => I)) as [(_ & _ & _ & Htable) _].
  assert (Hfail : Rx.ending (fst (pipeline s createInstance managementApi this)) <> None).
  { rewrite (@pipeline_after_login s createInstance managementApi this token Hl).
    exact (@evaluations_fail s managementApi (connect createInstance (argv this)) this
             (getApplications managementApi (argv this)) this a eq_refl eq_refl Hc Hin Hn). }
  rewrite definition_console, subscribe_console.
  destruct (Rx.ending (fst (pipeline s createInstance managementApi this))) as [e|];
    [| congruence].
  split; [| eauto]. rewrite table_app, Htable. simpl. apply app_nil_r.
Qed.

Lemma one_failing_application_leaves_no_table_witness :
  table (console (definition Scenario.schedules (fun _ _ => Scenario.search [3])
                    Fleet.managementApi (newCommand (defaultArgv "requests"))))
  = [].
Proof.
  refine (proj1 (@one_failing_application_leaves_no_table Scenario.schedules
                   (fun _ _ => Scenario.search [3]) Fleet.managementApi
                   (newCommand (defaultArgv "requests")) "token"
                   Scenario.undescribed I eq_refl _ _)).
  - right; left; reflexivity.
  - intros H. inversion H as [|? ? _ H']. inversion H' as [|? ? F _]. exact F.
Defined.

(** ** Reading the table back *)

Lemma split_without_separator (sep : ascii) (s : string) :
  Js.occurrences sep s = 0%nat -> Js.split sep s = [s].
Proof.
  induction s as [|c s IH]; simpl; [reflexivity|].
  destruct (Ascii.eqb c sep); [discriminate|]. intros H. now rewrite IH.
Qed.

Lemma split_at_separator (sep : ascii) (s t : string) :
  Js.occurrences sep s = 0%nat ->
  Js.split sep (s ++ String sep t) = s :: Js.split sep t.
Proof.
  induction s as [|c s IH]; simpl.
  - now rewrite Ascii.eqb_refl.
  - destruct (Ascii.eqb c sep); [discriminate|]. intros H. now rewrite IH.
Qed.

Lemma split_join (sep : ascii) (l : list string) :
  (forall x, In x l -> Js.occurrences sep x = 0%nat) -> l <> [] ->
  Js.split sep (Js.join (String sep "") l) = l.
Proof.
  induction l as [|x l IH]; intros Hl Hne; [congruence|].
  destruct l as [|y l].
  - simpl. apply split_without_separator, Hl. now left.
  - change (Js.join (String sep "") (x :: y :: l))
      with (x ++ String sep (Js.join (String sep "") (y :: l))).
    rewrite split_at_separator by (apply Hl; now left).
    f_equal. apply IH; [|discriminate]. intros z Hz. apply Hl. now right.
Qed.

Lemma split_joined_or_empty (l : list string) :
  (forall x, In x l -> Js.occurrences "," x = 0%nat) ->
  Js.split "," (Js.join CSV_SEPARATOR l) = match l with [] => [""] | _ => l end.
Proof.
  intros Hl. destruct l as [|x l]; [reflexivity|].
  apply (@split_join "," (x :: l) Hl). discriminate.
Qed.

(** X10. A data line whose identifier and name hold no separator splits at
    the separators into the identifier, the name and one flag per result, in
    the order of the results; without any result it ends on an empty
    field. *)
Theorem data_line_splits_into_its_fields (appQuality : AppQuality) :
  Js.occurrences "," (Application.id (app appQuality)) = 0%nat ->
  Js.occurrences "," (Application.name (app appQuality)) = 0%nat ->
  Js.split "," (dataLine appQuality)
  = Application.id (app appQuality)
    :: Application.name (app appQuality)
    :: match quality appQuality with
       | [] => [""]
       | results =>
           List.map (fun criteria => Js.boolToString (QualityCriterion.complied criteria))
             results
       end.
Proof.
  intros Hid Hname. unfold dataLine.
  change (CSV_SEPARATOR ++ Application.name (app appQuality) ++ CSV_SEPARATOR
          ++ Js.join CSV_SEPARATOR
               (List.map (fun criteria => Js.boolToString (QualityCriterion.complied criteria))
                  (quality appQuality)))
    with (String ","
            (Application.name (app appQuality)
             ++ String ","
                  (Js.join CSV_SEPARATOR
                     (List.map
                        (fun criteria => Js.boolToString (QualityCriterion.complied criteria))
                        (quality appQuality))))).
  rewrite split_at_separator by exact Hid.
  rewrite split_at_separator by exact Hname. do 2 f_equal.
  rewrite split_joined_or_empty.
  - now destruct (quality appQuality).
  - intros x Hx. apply in_map_iff in Hx as (c & <- & _). apply boolToString_occurrences.
Qed.

Lemma data_line_splits_into_its_fields_witness :
  Js.split ","
    (dataLine (reportOf Scenario.billing Scenario.managementApi (Some (Scenario.search [0]))
                 (newCommand Scenario.runtimeArgv)))
  = ["7f3a"; "Billing - Invoicing - FR"; "true"; "true"; "false"].
Proof.
  exact (data_line_splits_into_its_fields
           (reportOf Scenario.billing Scenario.managementApi (Some (Scenario.search [0]))
              (newCommand Scenario.runtimeArgv)) eq_refl eq_refl).
Defined.

(** X11. The header line of criteria whose references hold no separator
    splits into the two titles and the references, in the order of the
    criteria; together with X10 and C1, the flag in a column of a data line is
    the result for the reference in that column of the header. Without any
    criterion it ends on an empty field. *)
Theorem header_line_splits_into_its_titles (enabledCriteria : list Criterion.t) :
  (forall c, In c enabledCriteria -> Js.occurrences "," (Criterion.reference c) = 0%nat) ->
  Js.split "," (headerLine enabledCriteria)
  = "Application id" :: "Application name"
    :: match enabledCriteria with
       | [] => [""]
       | _ => List.map Criterion.reference enabledCriteria
       end.
Proof.
  intros Hl. unfold headerLine.
  change ("Application id,Application name," ++ ?x)
    with ("Application id" ++ String "," ("Application name" ++ String "," x)).
  rewrite !split_at_separator by reflexivity. do 2 f_equal.
  rewrite split_joined_or_empty.
  - now destruct enabledCriteria.
  - intros x Hx. apply in_map_iff in Hx as (c & <- & Hc). now apply Hl.
Qed.

Lemma header_line_splits_into_its_titles_witness :
  Js.split "," (headerLine (fst (getEnabledCriteria (newCommand Scenario.runtimeArgv))))
  = ["Application id"; "Application name"; "APP-DF01"; "APP-DF02"; "APP-R00"].
Proof.
  apply (header_line_splits_into_its_titles
           (fst (getEnabledCriteria (newCommand Scenario.runtimeArgv)))).
  intros c [<-|[<-|[<-|[]]]]; reflexivity.
Defined.

(** X12. With a [filter-by-id] that is not empty, the Applications of the
    run are those of the single lookup, and the listing is not used: when the
    lookup fails without an Application, the command displays that failure
    and nothing else. An empty [filter-by-id] counts as none: the run lists
    the Applications. *)
Theorem single_lookup_replaces_the_listing
        (s : Schedules) (createInstance : string -> list string -> ElasticSearch.t)
        (managementApi : ManagementApi.t) (this : Command) (token : string) :
  ManagementApi.login managementApi (username (argv this)) (password (argv this))
  = Rx.of_ token ->
  (forall i,
      filter_by_id (argv this) = Some i -> i <> "" ->
      getApplications managementApi (argv this)
      = ManagementApi.getApplication managementApi i
      /\ forall e,
          ManagementApi.getApplication managementApi i = Rx.Obs [] (Some e) ->
          console (definition s createInstance managementApi this)
          = (console this ++ [Error e])%list)
  /\ (filter_by_id (argv this) = Some "" ->
      getApplications managementApi (argv this)
      = ManagementApi.listApplications managementApi
          {| ManagementApi.byName := filter_by_name (argv this) |}
          (delay_period (argv this)) 30000).
Proof.
  intros Hl. split.
  - intros i Hi Hne.
    assert (Hget : getApplications managementApi (argv this)
                   = ManagementApi.getApplication managementApi i).
    { unfold getApplications. rewrite Hi.
      destruct (String.eqb_spec i ""); [contradiction | reflexivity]. }
    split; [exact Hget|]. intros e He.
    rewrite definition_console, (@pipeline_after_login s createInstance managementApi this token Hl).
    rewrite Hget, He, mergeMap_failed_source. now rewrite subscribe_console.
  - intros Hi. unfold getApplications. now rewrite Hi.
Qed.

Lemma single_lookup_replaces_the_listing_witness :
  console (definition Scenario.schedules (fun _ _ => Scenario.search [3])
             Scenario.managementApi (newCommand Fleet.byUnknownId))
  = [Error NotFound].
Proof.
  refine (proj2 (proj1 (@single_lookup_replaces_the_listing Scenario.schedules
                          (fun _ _ => Scenario.search [3]) Scenario.managementApi
                          (newCommand Fleet.byUnknownId) "token" eq_refl)
                   "unknown" eq_refl _) NotFound eq_refl).
  discriminate.
Defined.
